(** * Shell execution tool of picoclaw: pkg/tools/shell.go

    A shallow embedding of [ExecTool] (its deny/allow guard, the workspace
    confinement checks, [Execute] and [SetAllowPatterns]) on a non-Windows
    host.  Go strings are byte sequences, modelled as [list ascii]; the
    library functions the code calls (strings.TrimSpace, strings.ToLower,
    strings.Contains, regexp, path/filepath, time.Duration.String) are
    written out for byte strings.  strings.ToLower and strings.TrimSpace are
    written for the ASCII range (their fast path); commands outside it are
    not claimed to be modelled exactly by them. *)

From Stdlib Require Import Ascii String.
From Stdlib Require Import List Bool Arith ZArith Lia.
Import ListNotations.
Open Scope list_scope.

(** ** Byte strings *)

Definition gstr := list ascii.
Definition str (s : string) : gstr := list_ascii_of_string s.
Arguments str : simpl never.
Definition byte (n : nat) : ascii := ascii_of_nat n.

Definition nl := byte 10.
Definition dquote := byte 34.
Definition squote := byte 39.
Definition dot := byte 46.
Definition slash := byte 47.
Definition bslash := byte 92.
Definition nul := byte 0.

Fixpoint gstr_eqb (a b : gstr) : bool :=
  match a, b with
  | [], [] => true
  | x :: a', y :: b' => Ascii.eqb x y && gstr_eqb a' b'
  | _, _ => false
  end.

Definition is_nil {A} (l : list A) : bool :=
  match l with [] => true | _ => false end.

Definition in_range (lo hi : nat) (c : ascii) : bool :=
  (lo <=? nat_of_ascii c) && (nat_of_ascii c <=? hi).

Definition ascii_only (s : gstr) : bool := forallb (fun c => nat_of_ascii c <? 128) s.

(** strings.HasPrefix *)
Fixpoint HasPrefix (s prefix : gstr) {struct prefix} : bool :=
  match prefix, s with
  | [], _ => true
  | c :: p, d :: s' => Ascii.eqb c d && HasPrefix s' p
  | _ :: _, [] => false
  end.

(** strings.Contains *)
Fixpoint Contains (s substr : gstr) : bool :=
  HasPrefix s substr ||
  match s with
  | [] => false
  | _ :: s' => Contains s' substr
  end.

(** strings.ToLower on ASCII text. *)
Definition to_lower_byte (c : ascii) : ascii :=
  if in_range 65 90 c then byte (nat_of_ascii c + 32) else c.

Definition ToLower (s : gstr) : gstr := map to_lower_byte s.

(** strings.TrimSpace on ASCII text: \t \n \v \f \r and space. *)
Definition is_space_byte (c : ascii) : bool :=
  in_range 9 13 c || (nat_of_ascii c =? 32).

Fixpoint trim_left (s : gstr) : gstr :=
  match s with
  | [] => []
  | c :: s' => if is_space_byte c then trim_left s' else s
  end.

Definition TrimSpace (s : gstr) : gstr := rev (trim_left (rev (trim_left s))).

(** ** Regular expressions (Go regexp, RE2 syntax)

    A pattern is compiled to [regex].  [ends r s i] lists the positions at
    which a match of [r] starting at position [i] of [s] can end, in the
    order of preference of Go's leftmost-first semantics: alternatives
    left to right, repetitions greedy.  [MatchString] asks for a match at
    any start; [FindAllString] takes, from the leftmost start, the
    preferred end, as Go does. *)

Inductive regex :=
| RCls (p : ascii -> bool)          (* one byte of a character class *)
| REmpty                            (* the empty string *)
| RSeq (r1 r2 : regex)
| RAlt (r1 r2 : regex)              (* r1|r2, r1 preferred *)
| RStar (r : regex)                 (* r*, greedy *)
| RWordBoundary.                    (* \b, ASCII word characters *)

Definition is_word_byte (c : ascii) : bool :=
  in_range 48 57 c || in_range 65 90 c || in_range 97 122 c || (nat_of_ascii c =? 95).

Definition word_at (s : gstr) (i : nat) : bool :=
  match nth_error s i with Some c => is_word_byte c | None => false end.

Definition at_word_boundary (s : gstr) (i : nat) : bool :=
  let before := match i with O => false | S k => word_at s k end in
  xorb before (word_at s i).

Fixpoint star_ends (f : nat -> list nat) (fuel i : nat) : list nat :=
  match fuel with
  | O => [i]
  | S n => flat_map (fun j => if i <? j then star_ends f n j else []) (f i) ++ [i]
  end.

Fixpoint ends (r : regex) (s : gstr) (i : nat) : list nat :=
  match r with
  | RCls p =>
      match nth_error s i with
      | Some c => if p c then [S i] else []
      | None => []
      end
  | REmpty => [i]
  | RSeq a b => flat_map (ends b s) (ends a s i)
  | RAlt a b => ends a s i ++ ends b s i
  | RStar a => star_ends (ends a s) (S (length s - i)) i
  | RWordBoundary => if at_word_boundary s i then [i] else []
  end.

(** Regexp.MatchString *)
Definition MatchString (r : regex) (s : gstr) : bool :=
  existsb (fun i => negb (is_nil (ends r s i))) (seq 0 (S (length s))).

(** The leftmost match starting at or after [pos]: its start and end. *)
Fixpoint find_from (r : regex) (s : gstr) (fuel pos : nat) : option (nat * nat) :=
  match fuel with
  | O => None
  | S n =>
      match ends r s pos with
      | j :: _ => Some (pos, j)
      | [] => find_from r s n (S pos)
      end
  end.

Definition substr (s : gstr) (b e : nat) : gstr := firstn (e - b) (skipn b s).

(** Regexp.FindAllString(s, -1): successive non-overlapping matches; an
    empty match right after the previous match is dropped. *)
Fixpoint find_all (r : regex) (s : gstr) (fuel pos : nat) (prev : option nat) : list gstr :=
  match fuel with
  | O => []
  | S n =>
      if length s <? pos then [] else
      match find_from r s (S (length s - pos)) pos with
      | None => []
      | Some (b, e) =>
          let empty := e =? pos in
          let accept := negb (empty && match prev with Some p => b =? p | None => false end) in
          let pos' := if empty then S pos else e in
          (if accept then [substr s b e] else []) ++ find_all r s n pos' (Some e)
      end
  end.

Definition FindAllString (r : regex) (s : gstr) : list gstr :=
  find_all r s (S (S (length s))) 0 None.

(** Pattern building blocks. *)
Definition chr (c : ascii) : regex := RCls (Ascii.eqb c).
Fixpoint lit (s : gstr) : regex :=
  match s with [] => REmpty | c :: s' => RSeq (chr c) (lit s') end.
Definition one_of (s : gstr) : regex := RCls (fun c => existsb (Ascii.eqb c) s).
Definition rng (lo hi : nat) : regex := RCls (in_range lo hi).
Definition plus (r : regex) : regex := RSeq r (RStar r).
Definition opt (r : regex) : regex := RAlt r REmpty.
Fixpoint seqs (rs : list regex) : regex :=
  match rs with [] => REmpty | [r] => r | r :: rs' => RSeq r (seqs rs') end.
Fixpoint alts (rs : list regex) : regex :=
  match rs with [] => RCls (fun _ => false) | [r] => r | r :: rs' => RAlt r (alts rs') end.
Definition alt_lits (ws : list string) : regex := alts (map (fun w => lit (str w)) ws).

(** \s is [\t\n\f\r ], \d is [0-9], . is any byte but \n. *)
Definition is_perl_space (c : ascii) : bool :=
  match nat_of_ascii c with 9 | 10 | 12 | 13 | 32 => true | _ => false end.
Definition space : regex := RCls is_perl_space.
Definition digit : regex := rng 48 57.
Definition any_but_nl : regex := RCls (fun c => negb (Ascii.eqb c nl)).

(** The flag (?i): every class also accepts the other case of a letter. *)
Definition swap_case (c : ascii) : ascii :=
  if in_range 65 90 c then byte (nat_of_ascii c + 32)
  else if in_range 97 122 c then byte (nat_of_ascii c - 32) else c.

Fixpoint fold_case (r : regex) : regex :=
  match r with
  | RCls p => RCls (fun c => p c || p (swap_case c))
  | REmpty => REmpty
  | RSeq a b => RSeq (fold_case a) (fold_case b)
  | RAlt a b => RAlt (fold_case a) (fold_case b)
  | RStar a => RStar (fold_case a)
  | RWordBoundary => RWordBoundary
  end.

(** ** The deny patterns of NewExecTool *)

(** (?i)\brm\s+(-[rf]{1,2}|--recursive|--force) *)
Definition deny_rm : regex :=
  fold_case (seqs [RWordBoundary; lit (str "rm"); plus space;
    alts [seqs [chr "-"%char; one_of (str "rf"); opt (one_of (str "rf"))];
          lit (str "--recursive"); lit (str "--force")]]).
(** (?i)\bdel\s+/[fq] *)
Definition deny_del : regex :=
  fold_case (seqs [RWordBoundary; lit (str "del"); plus space; chr slash; one_of (str "fq")]).
(** (?i)\brmdir\s+/s *)
Definition deny_rmdir : regex :=
  fold_case (seqs [RWordBoundary; lit (str "rmdir"); plus space; chr slash; chr "s"%char]).
(** (?i)\b(format|mkfs|diskpart)\b\s *)
Definition deny_format : regex :=
  fold_case (seqs [RWordBoundary; alt_lits ["format"; "mkfs"; "diskpart"]%string;
    RWordBoundary; space]).
(** (?i)\bdd\s+if= *)
Definition deny_dd : regex :=
  fold_case (seqs [RWordBoundary; lit (str "dd"); plus space; lit (str "if=")]).
(** (?i)>\s*/dev/(sd[a-z]|nvme\d+n\d+|vd[a-z])\b *)
Definition deny_dev : regex :=
  fold_case (seqs [chr ">"%char; RStar space; lit (str "/dev/");
    alts [RSeq (lit (str "sd")) (rng 97 122);
          seqs [lit (str "nvme"); plus digit; chr "n"%char; plus digit];
          RSeq (lit (str "vd")) (rng 97 122)];
    RWordBoundary]).
(** (?i)\b(shutdown|reboot|poweroff)\b *)
Definition deny_power : regex :=
  fold_case (seqs [RWordBoundary; alt_lits ["shutdown"; "reboot"; "poweroff"]%string;
    RWordBoundary]).
(** :\(\)\s*\{.*\};\s*: *)
Definition deny_forkbomb : regex :=
  seqs [lit (str ":()"); RStar space; chr "{"%char; RStar any_but_nl; lit (str "};");
    RStar space; chr ":"%char].
(** (?i)\b(curl|wget)\b.*\|\s*(sh|bash|zsh|dash|ksh|csh|tcsh|fish) *)
Definition deny_pipe_shell : regex :=
  fold_case (seqs [RWordBoundary; alt_lits ["curl"; "wget"]%string; RWordBoundary;
    RStar any_but_nl; chr "|"%char; RStar space;
    alt_lits ["sh"; "bash"; "zsh"; "dash"; "ksh"; "csh"; "tcsh"; "fish"]%string]).
(** (?i)\beval\s+ *)
Definition deny_eval : regex :=
  fold_case (seqs [RWordBoundary; lit (str "eval"); plus space]).
(** (?i)\bxargs\s+.*\brm\b *)
Definition deny_xargs_rm : regex :=
  fold_case (seqs [RWordBoundary; lit (str "xargs"); plus space; RStar any_but_nl;
    RWordBoundary; lit (str "rm"); RWordBoundary]).

Definition default_deny_patterns : list regex :=
  [deny_rm; deny_del; deny_rmdir; deny_format; deny_dd; deny_dev; deny_power;
   deny_forkbomb; deny_pipe_shell; deny_eval; deny_xargs_rm].

(** The path pattern: a drive letter, a colon, a backslash and one or more
    bytes other than backslash and the two quote characters; or a slash and
    one or more bytes other than \s and the two quote characters. *)
Definition pathPattern : regex :=
  RAlt (seqs [RCls (fun c => in_range 65 90 c || in_range 97 122 c); chr ":"%char; chr bslash;
              plus (RCls (fun c => negb (Ascii.eqb c bslash || Ascii.eqb c dquote
                                         || Ascii.eqb c squote)))])
       (seqs [chr slash;
              plus (RCls (fun c => negb (is_perl_space c || Ascii.eqb c dquote
                                         || Ascii.eqb c squote)))]).

Example match_rm_1 : MatchString deny_rm (str "sudo rm -rf /") = true.
Proof. vm_compute. reflexivity. Qed.
Example match_rm_2 : MatchString deny_rm (str "confirm -rf") = false.
Proof. vm_compute. reflexivity. Qed.
Example match_pipe : MatchString deny_pipe_shell (str "curl x | bash") = true.
Proof. vm_compute. reflexivity. Qed.
Example find_paths :
  FindAllString pathPattern (str "cat /a/b 'c:\x y\z' src/m.go") =
  [str "/a/b"; list_ascii_of_string "c:" ++ [bslash] ++ str "x y"; str "/m.go"].
Proof. vm_compute. reflexivity. Qed.

(** ** path/filepath on a Unix host *)

(** strings.Split(s, sep) for a one-byte separator. *)
Fixpoint split_on (sep : ascii) (s : gstr) : list gstr :=
  match s with
  | [] => [[]]
  | c :: s' =>
      if Ascii.eqb c sep then [] :: split_on sep s'
      else match split_on sep s' with
           | w :: ws => (c :: w) :: ws
           | [] => [[c]]
           end
  end.

Fixpoint join_with (sep : ascii) (ws : list gstr) : gstr :=
  match ws with
  | [] => []
  | [w] => w
  | w :: ws' => w ++ sep :: join_with sep ws'
  end.

(** The element-wise reading of Clean: empty and [.] elements go, a [..]
    removes the element before it unless that is a [..] too, and a [..]
    at the root of a rooted path goes. [acc] holds the kept elements,
    last first. *)
Fixpoint clean_elems (rooted : bool) (ws acc : list gstr) : list gstr :=
  match ws with
  | [] => rev acc
  | w :: ws' =>
      if is_nil w || gstr_eqb w [dot] then clean_elems rooted ws' acc
      else if gstr_eqb w [dot; dot] then
        match acc with
        | a :: acc' =>
            if gstr_eqb a [dot; dot] then clean_elems rooted ws' (w :: acc)
            else clean_elems rooted ws' acc'
        | [] => if rooted then clean_elems rooted ws' [] else clean_elems rooted ws' [w]
        end
      else clean_elems rooted ws' (w :: acc)
  end.

(** filepath.Clean *)
Definition Clean (p : gstr) : gstr :=
  let rooted := HasPrefix p [slash] in
  let body := join_with slash (clean_elems rooted (split_on slash p) []) in
  if rooted then slash :: body
  else if is_nil body then [dot] else body.

(** filepath.IsAbs *)
Definition IsAbs (p : gstr) : bool := HasPrefix p [slash].

(** filepath.Join of two elements: empty elements are ignored. *)
Definition Join (a b : gstr) : gstr :=
  match a, b with
  | [], [] => []
  | [], _ => Clean b
  | _, [] => Clean a
  | _, _ => Clean (a ++ slash :: b)
  end.

(** filepath.Abs: a relative path is joined to the process's working
    directory, whose lookup (os.Getwd) may fail. *)
Definition Abs (getwd : option gstr) (p : gstr) : option gstr :=
  if IsAbs p then Some (Clean p)
  else match getwd with
       | Some wd => Some (Join wd p)
       | None => None
       end.

Fixpoint take_elem (s : gstr) : gstr :=
  match s with
  | [] => []
  | c :: s' => if Ascii.eqb c slash then [] else c :: take_elem s'
  end.

Fixpoint drop_elem (s : gstr) : gstr :=
  match s with
  | [] => []
  | c :: s' => if Ascii.eqb c slash then s else drop_elem s'
  end.

(** The scanning loop of filepath.Rel, on the unread suffixes base[b0:]
    and targ[t0:]: it stops at the first pair of differing elements and
    returns the two suffixes and the element base[b0:bi].  Two different
    cleaned paths always differ in some element, so the fuel never runs
    out where Go's loop terminates. *)
Fixpoint rel_scan (fuel : nat) (b t : gstr) : option (gstr * gstr * gstr) :=
  match fuel with
  | O => None
  | S n =>
      let eb := take_elem b in
      let et := take_elem t in
      if gstr_eqb et eb then rel_scan n (tl (drop_elem b)) (tl (drop_elem t))
      else Some (b, eb, t)
  end.

(** filepath.Rel; [None] is its error. *)
Definition Rel (basepath targpath : gstr) : option gstr :=
  let base := Clean basepath in
  let targ := Clean targpath in
  if gstr_eqb targ base then Some [dot] else
  let base := if gstr_eqb base [dot] then [] else base in
  if negb (Bool.eqb (HasPrefix base [slash]) (HasPrefix targ [slash])) then None else
  match rel_scan (S (length base + length targ)) base targ with
  | None => None
  | Some (brest, eb, trest) =>
      if gstr_eqb eb [dot; dot] then None
      else if negb (is_nil brest) then
        let seps := count_occ ascii_dec brest slash in
        Some ([dot; dot] ++ concat (repeat [slash; dot; dot] seps)
              ++ (if is_nil trest then [] else slash :: trest))
      else Some trest
  end.

Example clean_1 : Clean (str "/home/user/project/../../etc/passwd") = str "/home/etc/passwd".
Proof. vm_compute. reflexivity. Qed.
Example rel_1 : Rel (str "/home/user/project") (str "/etc/passwd") = Some (str "../../../etc/passwd").
Proof. vm_compute. reflexivity. Qed.
Example rel_2 : Rel (str "/home/user/project") (str "/home/user/project/src/main.go") = Some (str "src/main.go").
Proof. vm_compute. reflexivity. Qed.
Example rel_3 : Rel (str "/") (str "/etc") = Some (str "etc").
Proof. vm_compute. reflexivity. Qed.
Example rel_4 : Rel (str "/a/b") (str "/a") = Some (str "..").
Proof. vm_compute. reflexivity. Qed.

(** ** ExecTool *)

(** A time.Duration, in nanoseconds. *)
Definition Duration := Z.

Record ExecTool := {
  workingDir : gstr;
  timeout : Duration;
  denyPatterns : list regex;
  allowPatterns : list regex;
  restrictToWorkspace : bool
}.

Definition Second : Duration := 1000000000%Z.

Definition NewExecTool (workingDir : gstr) (restrict : bool) : ExecTool :=
  {| workingDir := workingDir;
     timeout := (60 * Second)%Z;
     denyPatterns := default_deny_patterns;
     allowPatterns := [];
     restrictToWorkspace := restrict |}.

Definition SetTimeout (t : ExecTool) (d : Duration) : ExecTool :=
  {| workingDir := workingDir t; timeout := d; denyPatterns := denyPatterns t;
     allowPatterns := allowPatterns t; restrictToWorkspace := restrictToWorkspace t |}.

Definition SetRestrictToWorkspace (t : ExecTool) (restrict : bool) : ExecTool :=
  {| workingDir := workingDir t; timeout := timeout t; denyPatterns := denyPatterns t;
     allowPatterns := allowPatterns t; restrictToWorkspace := restrict |}.

Definition msg_dangerous := str "Command blocked by safety guard (dangerous pattern detected)".
Definition msg_allowlist := str "Command blocked by safety guard (not in allowlist)".
Definition msg_traversal := str "Command blocked by safety guard (path traversal detected)".
Definition msg_encoded := str "Command blocked by safety guard (URL-encoded path traversal detected)".
Definition msg_null := str "Command blocked by safety guard (null byte injection detected)".
Definition msg_outside := str "Command blocked by safety guard (path outside working dir)".

(** The loop over the path matches: a match that does not resolve, or
    whose relative path cannot be computed, is skipped. *)
Fixpoint check_paths (getwd : option gstr) (cwdPath : gstr) (matches : list gstr) : gstr :=
  match matches with
  | [] => []
  | raw :: rest =>
      match Abs getwd raw with
      | None => check_paths getwd cwdPath rest
      | Some p =>
          match Rel cwdPath p with
          | None => check_paths getwd cwdPath rest
          | Some rel => if HasPrefix rel [dot; dot] then msg_outside
                        else check_paths getwd cwdPath rest
          end
      end
  end.

(** The [if t.restrictToWorkspace] block of guardCommand, on the trimmed
    command [cmd]. *)
Definition workspace_checks (getwd : option gstr) (cmd cwd : gstr) : gstr :=
  if Contains cmd [dot; dot; bslash] || Contains cmd (str "../") then msg_traversal
  else if Contains cmd (str "%2e%2e%2f") || Contains cmd (str "%2e%2e/")
          || Contains cmd (str "..%2f") || Contains cmd (str "%2e%2e%5c") then msg_encoded
  else if Contains cmd [nul] || Contains cmd (str "%00") then msg_null
  else match Abs getwd cwd with
       | None => []
       | Some cwdPath => check_paths getwd cwdPath (FindAllString pathPattern cmd)
       end.

Definition matches_any (ps : list regex) (s : gstr) : bool :=
  existsb (fun p => MatchString p s) ps.

(** guardCommand: the empty string allows the command, any other string
    is the reason it is blocked.  [getwd] is what os.Getwd returns to
    filepath.Abs. *)
Definition guardCommand (t : ExecTool) (getwd : option gstr) (command cwd : gstr) : gstr :=
  let cmd := TrimSpace command in
  let lower := ToLower cmd in
  if matches_any (denyPatterns t) lower then msg_dangerous
  else if (0 <? length (allowPatterns t)) && negb (matches_any (allowPatterns t) lower)
  then msg_allowlist
  else if restrictToWorkspace t then workspace_checks getwd cmd cwd
  else [].

(** SetAllowPatterns.  regexp.Compile is a parameter: [compile p] is
    [None] when [p] does not compile.  The field is reset first and each
    compiled pattern appended to it; the first failure returns with the
    field as it stands. *)
Inductive ConfigError := InvalidAllowPattern (p : gstr).

Fixpoint compile_loop (compile : gstr -> option regex) (ps : list gstr) (acc : list regex)
  : list regex * option ConfigError :=
  match ps with
  | [] => (acc, None)
  | p :: rest =>
      match compile p with
      | None => (acc, Some (InvalidAllowPattern p))
      | Some re => compile_loop compile rest (acc ++ [re])
      end
  end.

Definition SetAllowPatterns (compile : gstr -> option regex) (t : ExecTool) (patterns : list gstr)
  : ExecTool * option ConfigError :=
  let '(field, err) := compile_loop compile patterns [] in
  ({| workingDir := workingDir t; timeout := timeout t; denyPatterns := denyPatterns t;
      allowPatterns := field; restrictToWorkspace := restrictToWorkspace t |}, err).

(** ** Number formatting: fmt %d and time.Duration.String *)

Definition digit_char (d : Z) : ascii := byte (48 + Z.to_nat d).

Fixpoint fmt_int_loop (fuel : nat) (v : Z) (acc : gstr) : gstr :=
  match fuel with
  | O => acc
  | S n => if (v <=? 0)%Z then acc
           else fmt_int_loop n (v / 10)%Z (digit_char (v mod 10)%Z :: acc)
  end.

(** fmtInt of the time package, also the %d of a non-negative int: a
    number needs at most as many decimal digits as it has bits. *)
Definition fmtInt (v : Z) : gstr :=
  if (v =? 0)%Z then [digit_char 0]
  else fmt_int_loop (S (Z.to_nat (Z.log2 v))) v [].

Fixpoint fmt_frac_loop (prec : nat) (v : Z) (print : bool) (acc : gstr) : bool * gstr * Z :=
  match prec with
  | O => (print, acc, v)
  | S p =>
      let d := (v mod 10)%Z in
      let print' := print || negb (d =? 0)%Z in
      fmt_frac_loop p (v / 10)%Z print' (if print' then digit_char d :: acc else acc)
  end.

(** fmtFrac: the fraction v/10^prec without trailing zeros, and v/10^prec. *)
Definition fmtFrac (v : Z) (prec : nat) : gstr * Z :=
  let '(print, ds, v') := fmt_frac_loop prec v false [] in
  ((if print then dot :: ds else ds), v').

(** The micro sign U+00B5 in UTF-8. *)
Definition micro : gstr := [byte 194; byte 181].

(** time.Duration.String *)
Definition DurationString (d : Duration) : gstr :=
  let u := Z.abs d in
  let body :=
    if (u <? Second)%Z then
      if (u =? 0)%Z then str "0s"
      else
        let '(prec, unit) :=
          if (u <? 1000)%Z then (0, str "ns")
          else if (u <? 1000000)%Z then (3, micro ++ str "s")
          else (6, str "ms") in
        let '(frac, u') := fmtFrac u prec in
        fmtInt u' ++ frac ++ unit
    else
      let '(frac, secs) := fmtFrac u 9 in
      let s := fmtInt (secs mod 60)%Z ++ frac ++ str "s" in
      let mins := (secs / 60)%Z in
      if (0 <? mins)%Z then
        let m := fmtInt (mins mod 60)%Z ++ str "m" in
        let hours := (mins / 60)%Z in
        if (0 <? hours)%Z then fmtInt hours ++ str "h" ++ m ++ s else m ++ s
      else s in
  if (d <? 0)%Z then "-"%char :: body else body.

Example duration_1 : DurationString (60 * Second)%Z = str "1m0s".
Proof. vm_compute. reflexivity. Qed.
Example duration_2 : DurationString 1500000000%Z = str "1.5s".
Proof. vm_compute. reflexivity. Qed.
Example duration_3 : DurationString 3725000000000%Z = str "1h2m5s".
Proof. vm_compute. reflexivity. Qed.
Example duration_4 : DurationString (-2500)%Z = str "-2.5" ++ micro ++ str "s".
Proof. vm_compute. reflexivity. Qed.

(** ** Execute *)

Record ToolResult := { ForLLM : gstr; ForUser : gstr; IsError : bool }.

(** Modelled from the spec: ErrorResult (the tools package's result
    constructor, not among the sources): a result whose machine-facing and
    user-facing texts are both the message, with the error flag set. *)
Definition ErrorResult (msg : gstr) : ToolResult :=
  {| ForLLM := msg; ForUser := msg; IsError := true |}.

(** A value of the argument map (map[string]interface{}): a Go string or
    anything else; the map itself is a lookup function. *)
Inductive Value := VString (s : gstr) | VOther.
Definition Args := gstr -> option Value.

(** The process started by cmd.Run: sh -c command, in [dir] when set,
    under a context whose deadline is [deadline] away. *)
Record SpawnReq := { argv : list gstr; dir : option gstr; deadline : Duration }.

(** What cmd.Run reports: the two captured streams, its error (as printed
    by %v) and what cmdCtx.Err() is afterwards. *)
Inductive CtxErr := CtxNil | CtxCanceled | CtxDeadlineExceeded.
Record RunOutcome := { stdout : gstr; stderr : gstr; run_err : option gstr; ctx_err : CtxErr }.

(** The host as Execute sees it: os.Getwd and the log of processes
    started so far. *)
Record World := { w_getwd : option gstr; w_spawned : list SpawnReq }.

Definition effective_cwd (t : ExecTool) (args : Args) (getwd : option gstr) : gstr :=
  let cwd := match args (str "working_dir") with
             | Some (VString wd) => if is_nil wd then workingDir t else wd
             | _ => workingDir t
             end in
  if is_nil cwd then match getwd with Some wd => wd | None => cwd end else cwd.

Definition spawn_request (t : ExecTool) (command cwd : gstr) : SpawnReq :=
  {| argv := [str "sh"; str "-c"; command];
     dir := if is_nil cwd then None else Some cwd;
     deadline := timeout t |}.

Definition maxLen : nat := 10000.

Definition timeout_msg (t : ExecTool) : gstr :=
  str "Command timed out after " ++ DurationString (timeout t).

(** Everything after cmd.Run returns. *)
Definition finish (t : ExecTool) (o : RunOutcome) : ToolResult :=
  let output := stdout o ++ (if is_nil (stderr o) then []
                             else nl :: str "STDERR:" ++ nl :: stderr o) in
  match run_err o, ctx_err o with
  | Some _, CtxDeadlineExceeded =>
      {| ForLLM := timeout_msg t; ForUser := timeout_msg t; IsError := true |}
  | _, _ =>
      let output := match run_err o with
                    | Some e => output ++ nl :: str "Exit code: " ++ e
                    | None => output
                    end in
      let output := if is_nil output then str "(no output)" else output in
      let output :=
        if maxLen <? length output
        then firstn maxLen output ++ nl :: str "... (truncated, "
               ++ fmtInt (Z.of_nat (length output - maxLen)) ++ str " more chars)"
        else output in
      {| ForLLM := output; ForUser := output;
         IsError := match run_err o with Some _ => true | None => false end |}
  end.

(** ExecTool.Execute.  [run] is the behaviour of the started process. *)
Definition Execute (t : ExecTool) (args : Args) (run : SpawnReq -> RunOutcome) (w : World)
  : ToolResult * World :=
  match args (str "command") with
  | Some (VString command) =>
      let cwd := effective_cwd t args (w_getwd w) in
      let guardError := guardCommand t (w_getwd w) command cwd in
      if negb (is_nil guardError) then (ErrorResult guardError, w)
      else
        let req := spawn_request t command cwd in
        let w' := {| w_getwd := w_getwd w; w_spawned := w_spawned w ++ [req] |} in
        (finish t (run req), w')
  | _ => (ErrorResult (str "command is required"), w)
  end.

(** ** Concrete runs *)

Definition project := str "/home/user/project".
Definition project_tool := NewExecTool project true.

(** The argument map of a call with just a command. *)
Definition cmd_args (c : gstr) : Args :=
  fun k => if gstr_eqb k (str "command") then Some (VString c) else None.

Definition w0 : World := {| w_getwd := Some project; w_spawned := [] |}.

(** A process that prints [out] and [err] and exits with status 1. *)
Definition failing_run (out err : gstr) : SpawnReq -> RunOutcome :=
  fun _ => {| stdout := out; stderr := err; run_err := Some (str "exit status 1");
              ctx_err := CtxNil |}.

(** A process killed when its deadline passed, after printing [out]. *)
Definition timed_out_run (out : gstr) : SpawnReq -> RunOutcome :=
  fun _ => {| stdout := out; stderr := []; run_err := Some (str "signal: killed");
              ctx_err := CtxDeadlineExceeded |}.

(** A compiler that agrees with regexp.Compile on the patterns used
    below: the single parenthesis does not compile, other patterns are
    literal. *)
Definition toy_compile (p : gstr) : option regex :=
  if gstr_eqb p (str "(") then None else Some (lit p).

(** The workspace-restricted tool with the allow list [ls]. *)
Definition ls_only_tool : ExecTool :=
  {| workingDir := project; timeout := (60 * Second)%Z;
     denyPatterns := default_deny_patterns; allowPatterns := [lit (str "ls")];
     restrictToWorkspace := true |}.

Example guard_main_go :
  guardCommand project_tool (Some project) (str "cat /home/user/project/src/main.go") project = [].
Proof. vm_compute. reflexivity. Qed.
Example guard_etc_passwd :
  guardCommand project_tool (Some project) (str "cat /etc/passwd") project = msg_outside.
Proof. vm_compute. reflexivity. Qed.
Example guard_dotdot :
  guardCommand project_tool (Some project) (str "cat /home/user/project/../../etc/passwd") project
  = msg_traversal.
Proof. vm_compute. reflexivity. Qed.
Example guard_encoded :
  guardCommand project_tool (Some project) (str "cat %2e%2e%2fetc%2fpasswd") project = msg_encoded.
Proof. vm_compute. reflexivity. Qed.
Example guard_relative_slash :
  guardCommand project_tool (Some project) (str "cat src/main.go") project = msg_outside.
Proof. vm_compute. reflexivity. Qed.
Example guard_rm :
  guardCommand (NewExecTool project false) None (str "  SUDO RM -RF /tmp/x ") project = msg_dangerous.
Proof. vm_compute. reflexivity. Qed.

(** * Lemmas *)

(** ** strings.Contains and strings.TrimSpace *)

Lemma HasPrefix_app : forall n q, HasPrefix (n ++ q) n = true.
Proof. induction n as [|c n IH]; intros q; simpl; [reflexivity|]. rewrite Ascii.eqb_refl. apply IH. Qed.

Lemma HasPrefix_inv : forall s n, HasPrefix s n = true -> exists q, s = n ++ q.
Proof.
  intros s n; revert s; induction n as [|c n IH]; intros s H.
  - exists s; reflexivity.
  - destruct s as [|d s]; simpl in H; [discriminate|].
    apply andb_prop in H as [Hc Hs]. apply Ascii.eqb_eq in Hc; subst d.
    destruct (IH s Hs) as [q ->]. exists q; reflexivity.
Qed.

Lemma Contains_app : forall p n q, Contains (p ++ n ++ q) n = true.
Proof.
  induction p as [|c p IH]; intros n q; simpl.
  - destruct (n ++ q) eqn:E; simpl.
    + destruct n; [reflexivity|discriminate].
    + rewrite <- E, HasPrefix_app. reflexivity.
  - rewrite IH, orb_true_r. reflexivity.
Qed.

Lemma Contains_inv : forall s n, Contains s n = true -> exists p q, s = p ++ n ++ q.
Proof.
  induction s as [|c s IH]; intros n H; simpl in H.
  - rewrite orb_false_r in H. apply HasPrefix_inv in H as [q Hq].
    exists [], q; exact Hq.
  - apply orb_prop in H as [H|H].
    + apply HasPrefix_inv in H as [q Hq]. exists [], q; exact Hq.
    + destruct (IH n H) as (p & q & ->). exists (c :: p), q; reflexivity.
Qed.

Lemma Contains_infix : forall a s b n, Contains s n = true -> Contains (a ++ s ++ b) n = true.
Proof.
  intros a s b n H. apply Contains_inv in H as (p & q & ->).
  replace (a ++ (p ++ n ++ q) ++ b) with ((a ++ p) ++ n ++ (q ++ b))
    by (rewrite <- !app_assoc; reflexivity).
  apply Contains_app.
Qed.

Lemma trim_left_suffix : forall s, exists a, s = a ++ trim_left s.
Proof.
  induction s as [|c s IH]; simpl; [exists []; reflexivity|].
  destruct (is_space_byte c).
  - destruct IH as [a Ha]. exists (c :: a). simpl. f_equal. exact Ha.
  - exists []. reflexivity.
Qed.

Lemma TrimSpace_infix : forall s, exists a b, s = a ++ TrimSpace s ++ b.
Proof.
  intros s. destruct (trim_left_suffix s) as [a Ha].
  destruct (trim_left_suffix (rev (trim_left s))) as [b Hb].
  exists a, (rev b). unfold TrimSpace.
  rewrite <- rev_app_distr, <- Hb, rev_involutive. exact Ha.
Qed.

Lemma Contains_TrimSpace_back : forall s n, Contains (TrimSpace s) n = true -> Contains s n = true.
Proof.
  intros s n H. destruct (TrimSpace_infix s) as (a & b & Hs). rewrite Hs.
  apply Contains_infix, H.
Qed.

Definition no_space (n : gstr) : bool := forallb (fun c => negb (is_space_byte c)) n.

Lemma trim_left_app : forall x y,
  trim_left (x ++ y) = if forallb is_space_byte x then trim_left y else trim_left x ++ y.
Proof.
  induction x as [|c x IH]; intros y; simpl; [reflexivity|].
  destruct (is_space_byte c); simpl; [apply IH | reflexivity].
Qed.

Definition head_nonspace (n : gstr) : bool :=
  match n with c :: _ => negb (is_space_byte c) | [] => false end.

Lemma trim_left_nospace_head : forall n q, head_nonspace n = true -> trim_left (n ++ q) = n ++ q.
Proof.
  intros [|c n] q Hs; [discriminate|]. simpl in *.
  apply negb_true_iff in Hs. rewrite Hs. reflexivity.
Qed.

Lemma trim_left_keep : forall p n q, head_nonspace n = true ->
  exists p', trim_left (p ++ n ++ q) = p' ++ n ++ q /\
             (p' = [] \/ exists p0, p = p0 ++ p').
Proof.
  intros p n q Hs. rewrite trim_left_app.
  destruct (forallb is_space_byte p).
  - exists []. split; [rewrite trim_left_nospace_head by assumption; reflexivity | left; reflexivity].
  - exists (trim_left p). split; [reflexivity|].
    right. destruct (trim_left_suffix p) as [a Ha]. exists a; exact Ha.
Qed.

Lemma no_space_rev : forall n, no_space (rev n) = no_space n.
Proof.
  induction n as [|c n IH]; [reflexivity|]. unfold no_space in *; simpl.
  rewrite forallb_app, IH. simpl. rewrite andb_true_r, andb_comm. reflexivity.
Qed.

Lemma no_space_head : forall n, n <> [] -> no_space n = true -> head_nonspace n = true.
Proof.
  intros [|c n] Hn Hs; [congruence|]. simpl in *. apply andb_prop in Hs as [Hc _]. exact Hc.
Qed.

(** Trimming keeps an occurrence of a text that neither starts nor ends
    with a space, and what comes before it in the trimmed text is empty or
    ends as before. *)
Lemma TrimSpace_keep : forall p n q,
  head_nonspace n = true -> head_nonspace (rev n) = true ->
  exists p' q', TrimSpace (p ++ n ++ q) = p' ++ n ++ q' /\
                (p' = [] \/ exists p0, p = p0 ++ p').
Proof.
  intros p n q Hs Hs'. unfold TrimSpace.
  destruct (trim_left_keep p n q Hs) as (p' & E1 & Hp'). rewrite E1.
  rewrite !rev_app_distr, <- app_assoc.
  destruct (trim_left_keep (rev q) (rev n) (rev p') Hs') as (q' & E2 & _).
  rewrite E2, !rev_app_distr, !rev_involutive, <- app_assoc.
  exists p', (rev q'). split; [reflexivity | exact Hp'].
Qed.

Lemma rev_neq_nil : forall {A} (l : list A), l <> [] -> rev l <> [].
Proof. intros A l H E. apply H. rewrite <- (rev_involutive l), E. reflexivity. Qed.

Lemma Contains_TrimSpace : forall s n, n <> [] -> no_space n = true ->
  Contains s n = true -> Contains (TrimSpace s) n = true.
Proof.
  intros s n Hn Hs H. apply Contains_inv in H as (p & q & ->).
  destruct (TrimSpace_keep p n q) as (p' & q' & -> & _).
  - apply no_space_head; assumption.
  - apply no_space_head; [apply rev_neq_nil, Hn | rewrite no_space_rev; exact Hs].
  - apply Contains_app.
Qed.

(** ** The guard *)

Definition confinement_needles : list gstr :=
  [[dot; dot; bslash]; str "../"; str "%2e%2e%2f"; str "%2e%2e/"; str "..%2f";
   str "%2e%2e%5c"; [nul]; str "%00"].

Ltac msg_neq := intro; match goal with H : _ = [] |- _ => vm_compute in H; discriminate H end.

Lemma workspace_checks_nil : forall getwd cmd cwd,
  workspace_checks getwd cmd cwd = [] ->
  forallb (fun n => negb (Contains cmd n)) confinement_needles = true.
Proof.
  intros getwd cmd cwd H. unfold workspace_checks in H.
  repeat match type of H with
  | context [Contains ?c ?n] =>
      let E := fresh "E" in
      destruct (Contains c n) eqn:E; simpl in H; [vm_compute in H; discriminate H|]
  end.
  unfold confinement_needles. simpl.
  repeat match goal with E : Contains _ _ = false |- _ => rewrite E; clear E end.
  reflexivity.
Qed.

Lemma guard_nil_stages : forall t getwd command cwd,
  guardCommand t getwd command cwd = [] ->
  matches_any (denyPatterns t) (ToLower (TrimSpace command)) = false /\
  (restrictToWorkspace t = true -> workspace_checks getwd (TrimSpace command) cwd = []).
Proof.
  intros t getwd command cwd H. unfold guardCommand in H.
  destruct (matches_any (denyPatterns t) (ToLower (TrimSpace command))).
  - vm_compute in H; discriminate H.
  - split; [reflexivity|]. intros Hr.
    destruct (_ && _); [vm_compute in H; discriminate H|].
    rewrite Hr in H. exact H.
Qed.

Lemma Execute_guard_blocked : forall t args run w command,
  args (str "command") = Some (VString command) ->
  guardCommand t (w_getwd w) command (effective_cwd t args (w_getwd w)) <> [] ->
  Execute t args run w
  = (ErrorResult (guardCommand t (w_getwd w) command (effective_cwd t args (w_getwd w))), w).
Proof.
  intros t args run w command Ha Hg. unfold Execute. rewrite Ha.
  destruct (guardCommand t (w_getwd w) command (effective_cwd t args (w_getwd w))) eqn:E.
  - contradiction.
  - reflexivity.
Qed.

(** C1: when the guard blocks, Execute returns an error result carrying
    the guard's reason and leaves the host untouched: no process is
    started and nothing else changes, whatever the process would do. *)
Theorem Execute_blocked_spawns_nothing : forall t args run w command,
  args (str "command") = Some (VString command) ->
  guardCommand t (w_getwd w) command (effective_cwd t args (w_getwd w)) <> [] ->
  let '(res, w') := Execute t args run w in
  IsError res = true /\ w' = w /\ w_spawned w' = w_spawned w.
Proof.
  intros t args run w command Ha Hg.
  rewrite (Execute_guard_blocked t args run w command Ha Hg). simpl. auto.
Qed.

(** C2: a command whose trimmed, lowercased text matches a deny pattern is
    blocked as dangerous, whatever the allow patterns, the workspace flag
    and the working directory. *)
Theorem deny_takes_precedence : forall t getwd command cwd,
  matches_any (denyPatterns t) (ToLower (TrimSpace command)) = true ->
  guardCommand t getwd command cwd = msg_dangerous.
Proof. intros t getwd command cwd H. unfold guardCommand. rewrite H. reflexivity. Qed.

Lemma confinement_needles_shape : forall n, In n confinement_needles -> n <> [] /\ no_space n = true.
Proof.
  intros n H. unfold confinement_needles in H.
  repeat (destruct H as [<-|H]; [split; [discriminate | vm_compute; reflexivity]|]).
  destruct H.
Qed.

Lemma forallb_needle : forall cmd n,
  forallb (fun n => negb (Contains cmd n)) confinement_needles = true ->
  In n confinement_needles -> Contains cmd n = false.
Proof.
  intros cmd n H Hin. rewrite forallb_forall in H. apply negb_true_iff, H, Hin.
Qed.

(** C4: with the workspace restriction on, a command containing a
    traversal sequence, one of the lowercase percent-encoded traversal
    sequences, a null byte or %00 is blocked by guardCommand, whatever the
    working directory; Execute then starts no process. *)
Theorem traversal_sequences_blocked : forall t command n,
  restrictToWorkspace t = true ->
  In n confinement_needles ->
  Contains command n = true ->
  (forall getwd cwd, guardCommand t getwd command cwd <> []) /\
  (forall args run w, args (str "command") = Some (VString command) ->
     IsError (fst (Execute t args run w)) = true /\ snd (Execute t args run w) = w).
Proof.
  intros t command n Hr Hin Hc.
  assert (Hg : forall getwd cwd, guardCommand t getwd command cwd <> []).
  { intros getwd cwd Hnil.
    destruct (guard_nil_stages t getwd command cwd Hnil) as [_ Hw].
    apply workspace_checks_nil in Hw; [|exact Hr].
    destruct (confinement_needles_shape n Hin) as [Hne Hns].
    pose proof (Contains_TrimSpace command n Hne Hns Hc) as Ht.
    rewrite (forallb_needle _ n Hw Hin) in Ht. discriminate. }
  split; [exact Hg|].
  intros args run w Ha.
  rewrite (Execute_guard_blocked t args run w command Ha (Hg _ _)). simpl. auto.
Qed.

(** C6 (as it holds): for a command matching no deny pattern, an empty
    allow list lets it through the deny/allow stage, so guardCommand
    allows it when the workspace restriction is off and otherwise returns
    what the workspace checks return; a non-empty allow list none of whose
    patterns matches blocks it as not in the allowlist. *)
Theorem allowlist_stage : forall t getwd command cwd,
  matches_any (denyPatterns t) (ToLower (TrimSpace command)) = false ->
  (allowPatterns t = [] ->
     guardCommand t getwd command cwd
     = if restrictToWorkspace t then workspace_checks getwd (TrimSpace command) cwd else []) /\
  (allowPatterns t <> [] ->
     matches_any (allowPatterns t) (ToLower (TrimSpace command)) = false ->
     guardCommand t getwd command cwd = msg_allowlist).
Proof.
  intros t getwd command cwd Hd. unfold guardCommand. rewrite Hd. split.
  - intros Ha. rewrite Ha. reflexivity.
  - intros Ha Hm. rewrite Hm. destruct (allowPatterns t) as [|p ps]; [contradiction|].
    reflexivity.
Qed.

(** ** Matching the deny pattern for rm *)

Lemma In_ends_seq : forall a b s i j k,
  In j (ends a s i) -> In k (ends b s j) -> In k (ends (RSeq a b) s i).
Proof. intros a b s i j k Hj Hk. simpl. apply in_flat_map. exists j; auto. Qed.

Lemma In_ends_alt_l : forall a b s i j, In j (ends a s i) -> In j (ends (RAlt a b) s i).
Proof. intros. simpl. apply in_or_app; auto. Qed.

Lemma In_ends_alt_r : forall a b s i j, In j (ends b s i) -> In j (ends (RAlt a b) s i).
Proof. intros. simpl. apply in_or_app; auto. Qed.

Lemma In_ends_empty : forall s i, In i (ends REmpty s i).
Proof. intros. simpl. auto. Qed.

Lemma In_ends_cls : forall p s i c, nth_error s i = Some c -> p c = true -> In (S i) (ends (RCls p) s i).
Proof. intros p s i c Hc Hp. simpl. rewrite Hc, Hp. simpl. auto. Qed.

Lemma In_star_ends_refl : forall f fuel i, In i (star_ends f fuel i).
Proof. intros f [|n] i; simpl; [auto|]. apply in_or_app. right. simpl. auto. Qed.

Lemma In_ends_star_refl : forall a s i, In i (ends (RStar a) s i).
Proof. intros a s i. exact (In_star_ends_refl _ _ _). Qed.

Lemma In_ends_wb : forall s i, at_word_boundary s i = true -> In i (ends RWordBoundary s i).
Proof. intros s i H. simpl. rewrite H. simpl. auto. Qed.

Lemma MatchString_intro : forall r s i j, i <= length s -> In j (ends r s i) -> MatchString r s = true.
Proof.
  intros r s i j Hi Hj. unfold MatchString. apply existsb_exists. exists i. split.
  - apply in_seq. lia.
  - destruct (ends r s i); [destruct Hj | reflexivity].
Qed.

Lemma nth_error_shift : forall (A W : gstr) k, nth_error (A ++ W) (k + length A) = nth_error W k.
Proof.
  intros A W k. rewrite nth_error_app2 by lia. f_equal. lia.
Qed.

(** The text before a match starts a word there: it is empty or ends in
    a byte that is not a letter, a digit or an underscore. *)
Definition word_start (pre : gstr) : bool :=
  match rev pre with [] => true | c :: _ => negb (is_word_byte c) end.

Lemma boundary_start : forall A W c,
  word_start A = true -> hd_error W = Some c -> is_word_byte c = true ->
  at_word_boundary (A ++ W) (length A) = true.
Proof.
  intros A W c HA HW Hc. unfold at_word_boundary, word_at.
  destruct W as [|c' W]; [discriminate|]. injection HW as ->.
  rewrite nth_error_app2, Nat.sub_diag by lia. simpl. rewrite Hc.
  unfold word_start in HA. destruct (rev A) as [|d R] eqn:E.
  - apply (f_equal (@rev ascii)) in E. rewrite rev_involutive in E. subst A. reflexivity.
  - apply (f_equal (@rev ascii)) in E. rewrite rev_involutive in E. subst A. simpl.
    rewrite length_app. simpl. rewrite Nat.add_1_r.
    rewrite nth_error_app1 by (rewrite length_app; simpl; lia).
    rewrite nth_error_app2 by (rewrite length_rev; lia).
    rewrite length_rev, Nat.sub_diag. simpl.
    apply negb_true_iff in HA. rewrite HA. reflexivity.
Qed.

Ltac pos_k p :=
  match p with
  | S ?x => let k := pos_k x in constr:(S k)
  | _ => constr:(0)
  end.

Ltac byte_at :=
  match goal with
  | |- nth_error (?A ++ ?W) ?p = _ =>
      let k := pos_k p in change p with (k + length A); rewrite nth_error_shift; reflexivity
  end.

Ltac solve_in :=
  match goal with
  | |- In _ (ends (RSeq _ _) _ _) => eapply In_ends_seq; [solve_in | solve_in]
  | |- In _ (ends (RAlt _ _) _ _) =>
      first [eapply In_ends_alt_l; solve_in | eapply In_ends_alt_r; solve_in]
  | |- In _ (ends REmpty _ _) => apply In_ends_empty
  | |- In _ (ends (RStar _) _ _) => apply In_ends_star_refl
  | |- In _ (ends (RCls _) _ _) => eapply In_ends_cls; [byte_at | reflexivity]
  | |- In _ (ends RWordBoundary _ _) =>
      apply In_ends_wb; eapply boundary_start; [eassumption | reflexivity | reflexivity]
  end.

Definition rm_variants : list gstr :=
  [str "rm -rf"; str "rm -r -f"; str "rm --recursive --force"].

Lemma deny_rm_matches : forall A V B,
  In V rm_variants -> word_start A = true -> MatchString deny_rm (A ++ V ++ B) = true.
Proof.
  intros A V B HV HA. unfold rm_variants in HV.
  destruct HV as [<-|[<-|[<-|[]]]];
    (eapply (MatchString_intro _ _ (length A)); [rewrite !length_app; lia|]);
    unfold deny_rm;
    cbv [fold_case seqs alts lit str list_ascii_of_string one_of opt plus chr space];
    solve_in.
Qed.

Lemma is_word_lower : forall c, is_word_byte (to_lower_byte c) = is_word_byte c.
Proof. intros [[] [] [] [] [] [] [] []]; reflexivity. Qed.

Lemma is_space_lower : forall c, is_space_byte (to_lower_byte c) = is_space_byte c.
Proof. intros [[] [] [] [] [] [] [] []]; reflexivity. Qed.

Lemma head_nonspace_lower : forall n, head_nonspace (ToLower n) = head_nonspace n.
Proof. intros [|c n]; simpl; [reflexivity|]. rewrite is_space_lower. reflexivity. Qed.

Lemma word_start_lower : forall p, word_start (ToLower p) = word_start p.
Proof.
  intros p. unfold word_start, ToLower. rewrite <- map_rev.
  destruct (rev p) as [|c r]; simpl; [reflexivity|]. rewrite is_word_lower. reflexivity.
Qed.

Lemma word_start_suffix : forall p0 p, word_start (p0 ++ p) = true -> word_start p = true.
Proof.
  intros p0 p H. unfold word_start in *. rewrite rev_app_distr in H.
  destruct (rev p); [reflexivity | exact H].
Qed.

(** C3 (as it holds): for an ASCII command with [rm -rf], [rm -r -f] or
    [rm --recursive --force] in it, in any letter case, at a place where a
    word starts (at the beginning of the command or after a byte that is
    not a letter, digit or underscore), guardCommand blocks it as
    dangerous, whatever follows and whatever the rest of the configuration
    is. *)
Theorem rm_rf_blocked_at_word_start : forall t getwd cwd pre v post,
  In deny_rm (denyPatterns t) ->
  ascii_only (pre ++ v ++ post) = true ->
  In (ToLower v) rm_variants ->
  word_start pre = true ->
  guardCommand t getwd (pre ++ v ++ post) cwd = msg_dangerous.
Proof.
  intros t getwd cwd pre v post Hd _ Hv Hw.
  assert (Hh : head_nonspace v = true /\ head_nonspace (rev v) = true).
  { rewrite <- head_nonspace_lower, <- (head_nonspace_lower (rev v)).
    unfold ToLower. rewrite map_rev. fold (ToLower v).
    unfold rm_variants in Hv.
    destruct Hv as [<-|[<-|[<-|[]]]]; split; reflexivity. }
  destruct Hh as [Hh1 Hh2].
  destruct (TrimSpace_keep pre v post Hh1 Hh2) as (p' & q' & Ht & Hp).
  assert (Hw' : word_start p' = true).
  { destruct Hp as [->|[p0 ->]]; [reflexivity | eapply word_start_suffix; exact Hw]. }
  unfold guardCommand. rewrite Ht.
  unfold ToLower at 1. rewrite !map_app. fold (ToLower p') (ToLower v) (ToLower q').
  rewrite <- word_start_lower in Hw'.
  assert (Hm : matches_any (denyPatterns t) (ToLower p' ++ ToLower v ++ ToLower q') = true).
  { apply existsb_exists. exists deny_rm. split; [exact Hd|].
    apply deny_rm_matches; assumption. }
  rewrite Hm. reflexivity.
Qed.

(** ** The path checks *)

Lemma check_paths_nil : forall getwd cwdPath ms,
  (forall tok p r, In tok ms -> Abs getwd tok = Some p -> Rel cwdPath p = Some r ->
     HasPrefix r [dot; dot] = false) ->
  check_paths getwd cwdPath ms = [].
Proof.
  intros getwd cwdPath ms; induction ms as [|raw ms IH]; intros H; cbn [check_paths]; [reflexivity|].
  destruct (Abs getwd raw) as [p|] eqn:Ea; [|apply IH; intros; eapply H; eauto; right; assumption].
  destruct (Rel cwdPath p) as [r|] eqn:Er; [|apply IH; intros; eapply H; eauto; right; assumption].
  rewrite (H raw p r (or_introl eq_refl) Ea Er). apply IH. intros; eapply H; eauto. right; assumption.
Qed.

Lemma check_paths_outside : forall getwd cwdPath ms tok p r,
  In tok ms -> Abs getwd tok = Some p -> Rel cwdPath p = Some r -> HasPrefix r [dot; dot] = true ->
  check_paths getwd cwdPath ms = msg_outside.
Proof.
  intros getwd cwdPath ms; induction ms as [|raw ms IH]; intros tok p r Hin Ha Hr Hp;
    [destruct Hin|]; cbn [check_paths].
  destruct Hin as [<-|Hin].
  - rewrite Ha, Hr, Hp. reflexivity.
  - destruct (Abs getwd raw) as [p'|]; [|eapply IH; eauto].
    destruct (Rel cwdPath p') as [r'|]; [|eapply IH; eauto].
    destruct (HasPrefix r' [dot; dot]); [reflexivity | eapply IH; eauto].
Qed.

Ltac in_needles := unfold confinement_needles; repeat (first [left; reflexivity | right]).

Lemma workspace_checks_reach : forall getwd cmd cwd,
  forallb (fun n => negb (Contains cmd n)) confinement_needles = true ->
  workspace_checks getwd cmd cwd
  = match Abs getwd cwd with
    | None => []
    | Some cwdPath => check_paths getwd cwdPath (FindAllString pathPattern cmd)
    end.
Proof.
  intros getwd cmd cwd Hf. unfold workspace_checks.
  repeat match goal with
  | |- context [Contains cmd ?n] => rewrite (forallb_needle cmd n Hf) by in_needles
  end.
  reflexivity.
Qed.

Lemma needles_TrimSpace : forall command,
  forallb (fun n => negb (Contains command n)) confinement_needles = true ->
  forallb (fun n => negb (Contains (TrimSpace command) n)) confinement_needles = true.
Proof.
  intros command H. apply forallb_forall. intros n Hin. apply negb_true_iff.
  destruct (Contains (TrimSpace command) n) eqn:E; [|reflexivity].
  apply Contains_TrimSpace_back in E. rewrite (forallb_needle command n H Hin) in E. discriminate.
Qed.

(** A command that passes the deny list, the allow list and the string
    checks of the workspace restriction is decided by its path matches. *)
Lemma guard_reach_paths : forall t getwd command cwd,
  restrictToWorkspace t = true ->
  matches_any (denyPatterns t) (ToLower (TrimSpace command)) = false ->
  (allowPatterns t = [] \/ matches_any (allowPatterns t) (ToLower (TrimSpace command)) = true) ->
  forallb (fun n => negb (Contains command n)) confinement_needles = true ->
  guardCommand t getwd command cwd
  = match Abs getwd cwd with
    | None => []
    | Some cwdPath => check_paths getwd cwdPath (FindAllString pathPattern (TrimSpace command))
    end.
Proof.
  intros t getwd command cwd Hr Hd Ha Hn. unfold guardCommand. rewrite Hd, Hr.
  replace ((0 <? length (allowPatterns t)) && negb (matches_any (allowPatterns t) (ToLower (TrimSpace command))))
    with false.
  - apply workspace_checks_reach, needles_TrimSpace, Hn.
  - destruct Ha as [-> | ->]; [reflexivity | rewrite andb_false_r; reflexivity].
Qed.

Lemma guard_nonempty_paths : forall t getwd command cwd cwdPath tok p r,
  restrictToWorkspace t = true -> Abs getwd cwd = Some cwdPath ->
  In tok (FindAllString pathPattern (TrimSpace command)) ->
  Abs getwd tok = Some p -> Rel cwdPath p = Some r -> HasPrefix r [dot; dot] = true ->
  guardCommand t getwd command cwd <> [].
Proof.
  intros t getwd command cwd cwdPath tok p r Hr Hc Hin Ha Hrel Hp Hnil.
  destruct (guard_nil_stages t getwd command cwd Hnil) as [_ Hw].
  specialize (Hw Hr). pose proof (workspace_checks_nil _ _ _ Hw) as Hf.
  rewrite workspace_checks_reach, Hc in Hw by exact Hf.
  rewrite (check_paths_outside getwd cwdPath _ tok p r Hin Ha Hrel Hp) in Hw.
  vm_compute in Hw. discriminate Hw.
Qed.

(** With the workspace restriction on and a working
    directory that resolves, a command with a path match (of the path
    pattern, on the trimmed command) that resolves to a path whose path
    relative to the working directory starts with [..] is blocked; the
    reason is path outside working dir when the deny list, the allow list
    and the traversal, encoding and null-byte checks let the command
    through, and the reason of the earlier check otherwise.  With working
    directory /home/user/project, a command naming
    /home/user/project/../../etc/passwd is blocked and
    cat /home/user/project/src/main.go is allowed. *)
Theorem outside_path_blocked :
  (forall t getwd command cwd cwdPath tok p r,
     restrictToWorkspace t = true -> Abs getwd cwd = Some cwdPath ->
     In tok (FindAllString pathPattern (TrimSpace command)) ->
     Abs getwd tok = Some p -> Rel cwdPath p = Some r -> HasPrefix r [dot; dot] = true ->
     guardCommand t getwd command cwd <> [] /\
     (matches_any (denyPatterns t) (ToLower (TrimSpace command)) = false ->
      (allowPatterns t = [] \/ matches_any (allowPatterns t) (ToLower (TrimSpace command)) = true) ->
      forallb (fun n => negb (Contains command n)) confinement_needles = true ->
      guardCommand t getwd command cwd = msg_outside)) /\
  guardCommand project_tool (Some project) (str "cat /home/user/project/../../etc/passwd") project
    <> [] /\
  guardCommand project_tool (Some project) (str "cat /home/user/project/src/main.go") project = [].
Proof.
  split; [|split; [vm_compute; discriminate | vm_compute; reflexivity]].
  intros t getwd command cwd cwdPath tok p r Hr Hc Hin Ha Hrel Hp. split.
  - eapply guard_nonempty_paths; eauto.
  - intros Hd Hal Hn. rewrite (guard_reach_paths t getwd command cwd Hr Hd Hal Hn), Hc.
    eapply check_paths_outside; eauto.
Qed.

(** C10 (as it holds): the encoded-traversal and null-byte checks look at
    the command as written (only trimmed), not lowercased.  So, with the
    workspace restriction on, a command that matches no deny pattern,
    passes the allow list (empty, or one of its patterns matches), contains
    none of [../], [..\], the lowercase encodings, a null byte or %00, and
    has no path match resolving outside the working directory, is allowed,
    even if it contains an upper- or mixed-case encoding such as %2E%2E%2F. *)
Theorem uppercase_encoding_allowed : forall t getwd command cwd,
  restrictToWorkspace t = true ->
  matches_any (denyPatterns t) (ToLower (TrimSpace command)) = false ->
  (allowPatterns t = [] \/ matches_any (allowPatterns t) (ToLower (TrimSpace command)) = true) ->
  forallb (fun n => negb (Contains command n)) confinement_needles = true ->
  (forall cwdPath tok p r, Abs getwd cwd = Some cwdPath ->
     In tok (FindAllString pathPattern (TrimSpace command)) ->
     Abs getwd tok = Some p -> Rel cwdPath p = Some r -> HasPrefix r [dot; dot] = false) ->
  guardCommand t getwd command cwd = [].
Proof.
  intros t getwd command cwd Hr Hd Ha Hn Hp. rewrite (guard_reach_paths t getwd command cwd Hr Hd Ha Hn).
  destruct (Abs getwd cwd) as [cwdPath|] eqn:Ec; [|reflexivity].
  apply check_paths_nil. intros tok p r Hin Ha' Hrel. exact (Hp cwdPath tok p r eq_refl Hin Ha' Hrel).
Qed.

(** ** SetAllowPatterns *)

(** C7 (defect): SetAllowPatterns empties the allow list before it
    compiles anything and returns on the first pattern that does not
    compile, so a failed call is not atomic.  After the list [ls] has been
    configured, a call with the single invalid pattern [(] reports the
    error but leaves the allow list empty: a command that the previous
    configuration blocked as not in the allowlist is then allowed. *)
Theorem SetAllowPatterns_failure_not_atomic : forall compile,
  compile (str "ls") = Some (lit (str "ls")) ->
  compile (str "(") = None ->
  let t1 := fst (SetAllowPatterns compile (NewExecTool project false) [str "ls"]) in
  let t2 := fst (SetAllowPatterns compile t1 [str "("]) in
  snd (SetAllowPatterns compile t1 [str "("]) = Some (InvalidAllowPattern (str "(")) /\
  guardCommand t1 None (str "cat notes.txt") project = msg_allowlist /\
  allowPatterns t2 = [] /\ allowPatterns t2 <> allowPatterns t1 /\
  guardCommand t2 None (str "cat notes.txt") project = [].
Proof.
  intros compile Hls Hparen. unfold SetAllowPatterns. cbn [compile_loop].
  rewrite Hls. cbn [compile_loop fst snd app allowPatterns]. rewrite Hparen. cbn [fst snd allowPatterns].
  split; [reflexivity|]. split; [vm_compute; reflexivity|].
  split; [reflexivity|]. split; [discriminate | vm_compute; reflexivity].
Qed.

(** ** Result of a run *)

Definition no_nl (s : gstr) : bool := forallb (fun c => negb (Ascii.eqb c nl)) s.

Lemma no_nl_app : forall a b, no_nl (a ++ b) = no_nl a && no_nl b.
Proof. intros. apply forallb_app. Qed.

Lemma no_nl_mid : forall a b, no_nl (a ++ nl :: b) = false.
Proof. intros a b. rewrite no_nl_app. destruct (no_nl a); reflexivity. Qed.

Lemma digit_char_no_nl : forall d, (0 <= d < 10)%Z -> Ascii.eqb (digit_char d) nl = false.
Proof.
  intros d Hd.
  assert (d = 0 \/ d = 1 \/ d = 2 \/ d = 3 \/ d = 4 \/ d = 5 \/ d = 6 \/ d = 7 \/ d = 8 \/ d = 9)%Z
    as Hc by lia.
  repeat destruct Hc as [->|Hc]; try reflexivity. subst; reflexivity.
Qed.

Lemma fmt_int_loop_no_nl : forall fuel v acc, no_nl acc = true -> no_nl (fmt_int_loop fuel v acc) = true.
Proof.
  induction fuel as [|n IH]; intros v acc H; cbn [fmt_int_loop]; [exact H|].
  destruct (v <=? 0)%Z; [exact H|]. apply IH. unfold no_nl; cbn [forallb].
  rewrite digit_char_no_nl by (apply Z.mod_pos_bound; lia). exact H.
Qed.

Lemma fmtInt_no_nl : forall v, no_nl (fmtInt v) = true.
Proof.
  intros v. unfold fmtInt. destruct (v =? 0)%Z; [reflexivity|]. apply fmt_int_loop_no_nl. reflexivity.
Qed.

Lemma fmt_frac_loop_no_nl : forall prec v pr acc,
  no_nl acc = true -> no_nl (snd (fst (fmt_frac_loop prec v pr acc))) = true.
Proof.
  induction prec as [|n IH]; intros v pr acc H; cbn [fmt_frac_loop]; [exact H|]. apply IH.
  destruct (pr || negb (v mod 10 =? 0))%Z; [|exact H]. unfold no_nl; cbn [forallb].
  rewrite digit_char_no_nl by (apply Z.mod_pos_bound; lia). exact H.
Qed.

Lemma fmtFrac_no_nl : forall v prec, no_nl (fst (fmtFrac v prec)) = true.
Proof.
  intros v prec. unfold fmtFrac. pose proof (fmt_frac_loop_no_nl prec v false [] eq_refl) as H.
  destruct (fmt_frac_loop prec v false []) as [[pr ds] v']. simpl in *.
  destruct pr; exact H.
Qed.

Lemma DurationString_no_nl : forall d, no_nl (DurationString d) = true.
Proof.
  intros d. unfold DurationString. cbv beta iota zeta.
  assert (Hneg : forall x, no_nl x = true -> no_nl ("-"%char :: x) = true) by (intros x Hx; exact Hx).
  repeat match goal with
  | |- context [if ?b then _ else _] => destruct b; cbv beta iota zeta
  | |- context [fmtFrac ?v ?p] =>
      let E := fresh "E" in let Hf := fresh "Hf" in
      pose proof (fmtFrac_no_nl v p) as Hf;
      destruct (fmtFrac v p) as [? ?] eqn:E; simpl in Hf; cbv beta iota zeta
  end;
  try apply Hneg;
  rewrite ?no_nl_app, ?fmtInt_no_nl;
  repeat match goal with H : no_nl _ = true |- _ => rewrite H; clear H end;
  reflexivity.
Qed.

Lemma no_nl_timeout_msg : forall t, no_nl (timeout_msg t) = true.
Proof. intros t. unfold timeout_msg. rewrite no_nl_app, DurationString_no_nl. reflexivity. Qed.

Lemma is_nil_nl : forall a b, is_nil (a ++ nl :: b) = false.
Proof. intros [|c a] b; reflexivity. Qed.

Lemma Execute_runs : forall t args run w command,
  args (str "command") = Some (VString command) ->
  guardCommand t (w_getwd w) command (effective_cwd t args (w_getwd w)) = [] ->
  Execute t args run w
  = (finish t (run (spawn_request t command (effective_cwd t args (w_getwd w)))),
     {| w_getwd := w_getwd w;
        w_spawned := w_spawned w ++ [spawn_request t command (effective_cwd t args (w_getwd w))] |}).
Proof.
  intros t args run w command Ha Hg. unfold Execute. rewrite Ha. cbv beta iota zeta.
  rewrite Hg. reflexivity.
Qed.

(** The text of a failed, not timed out run, before the placeholder and
    the truncation. *)
Definition failure_text (o : RunOutcome) (e : gstr) : gstr :=
  (stdout o ++ (if is_nil (stderr o) then [] else nl :: str "STDERR:" ++ nl :: stderr o))
  ++ nl :: str "Exit code: " ++ e.

Definition truncated (out : gstr) : gstr :=
  firstn maxLen out ++ nl :: str "... (truncated, "
    ++ fmtInt (Z.of_nat (length out - maxLen)) ++ str " more chars)".

Lemma finish_failure : forall t o e,
  run_err o = Some e -> ctx_err o <> CtxDeadlineExceeded ->
  finish t o =
  (let out := failure_text o e in
   let out := if maxLen <? length out then truncated out else out in
   {| ForLLM := out; ForUser := out; IsError := true |}).
Proof.
  intros t [so se re ce] e He Hc. cbn [run_err ctx_err] in He, Hc. subst re.
  unfold finish, failure_text. cbn [run_err ctx_err stdout stderr].
  destruct ce; [| |contradiction]; cbv beta iota zeta;
  rewrite is_nil_nl; reflexivity.
Qed.

Lemma finish_failure_has_nl : forall t o e,
  run_err o = Some e -> ctx_err o <> CtxDeadlineExceeded ->
  no_nl (ForLLM (finish t o)) = false /\ no_nl (ForUser (finish t o)) = false.
Proof.
  intros t o e He Hc. rewrite (finish_failure t o e He Hc). cbv beta zeta.
  unfold failure_text, truncated.
  destruct (maxLen <? _); cbn [ForLLM ForUser]; rewrite no_nl_mid; split; reflexivity.
Qed.

(** C8: when the started process fails and the command's context reports
    that its deadline was exceeded, Execute returns an error result whose
    text (for the model and for the user) is exactly Command timed out
    after followed by the configured timeout, whatever the process printed
    before it was stopped; and the text of any other failed run differs
    from it (it always holds a newline, the timeout text never does). *)
Theorem timeout_outcome_distinct : forall t args run w command,
  args (str "command") = Some (VString command) ->
  guardCommand t (w_getwd w) command (effective_cwd t args (w_getwd w)) = [] ->
  run_err (run (spawn_request t command (effective_cwd t args (w_getwd w)))) <> None ->
  ctx_err (run (spawn_request t command (effective_cwd t args (w_getwd w)))) = CtxDeadlineExceeded ->
  fst (Execute t args run w)
  = {| ForLLM := str "Command timed out after " ++ DurationString (timeout t);
       ForUser := str "Command timed out after " ++ DurationString (timeout t);
       IsError := true |}
  /\ (forall o e, run_err o = Some e -> ctx_err o <> CtxDeadlineExceeded ->
      ForLLM (finish t o) <> timeout_msg t /\ ForUser (finish t o) <> timeout_msg t).
Proof.
  intros t args run w command Ha Hg Hr Hc. split.
  - rewrite (Execute_runs t args run w command Ha Hg). cbn [fst].
    destruct (run (spawn_request t command (effective_cwd t args (w_getwd w))))
      as [so se [re|] ce]; cbn [run_err ctx_err] in Hr, Hc; [|contradiction].
    subst ce. reflexivity.
  - intros o e He Hc'. destruct (finish_failure_has_nl t o e He Hc') as [H1 H2].
    split; intros Heq; [rewrite Heq in H1 | rewrite Heq in H2];
    rewrite no_nl_timeout_msg in *; discriminate.
Qed.

(** C9 (amended): when the started process fails without its deadline
    being exceeded, Execute returns an error result whose text is the
    standard output, then (if the error stream is not empty) a newline,
    STDERR:, a newline and the error stream, then a newline, Exit code:
    and the error; this text is returned whole when it has at most maxLen
    bytes, and otherwise only its first maxLen bytes are kept, followed
    by the truncation note, so the STDERR section and the exit-code
    marker can be lost. *)
Theorem failed_run_result : forall t args run w command e,
  args (str "command") = Some (VString command) ->
  guardCommand t (w_getwd w) command (effective_cwd t args (w_getwd w)) = [] ->
  run_err (run (spawn_request t command (effective_cwd t args (w_getwd w)))) = Some e ->
  ctx_err (run (spawn_request t command (effective_cwd t args (w_getwd w)))) <> CtxDeadlineExceeded ->
  let o := run (spawn_request t command (effective_cwd t args (w_getwd w))) in
  let out := (stdout o ++ (if is_nil (stderr o) then []
                           else nl :: str "STDERR:" ++ nl :: stderr o))
             ++ nl :: str "Exit code: " ++ e in
  IsError (fst (Execute t args run w)) = true
  /\ (length out <= maxLen -> ForLLM (fst (Execute t args run w)) = out
                              /\ ForUser (fst (Execute t args run w)) = out)
  /\ (maxLen < length out ->
      ForLLM (fst (Execute t args run w))
      = firstn maxLen out ++ nl :: str "... (truncated, "
          ++ fmtInt (Z.of_nat (length out - maxLen)) ++ str " more chars)").
Proof.
  intros t args run w command e Ha Hg He Hc o out.
  rewrite (Execute_runs t args run w command Ha Hg). cbn [fst].
  rewrite (finish_failure t _ e He Hc). cbv beta zeta.
  fold o. fold (failure_text o e). change (failure_text o e) with out.
  split; [destruct (maxLen <? length out); reflexivity|].
  split; intros Hl.
  - replace (maxLen <? length out) with false by (symmetry; apply Nat.ltb_ge; exact Hl).
    split; reflexivity.
  - replace (maxLen <? length out) with true by (symmetry; apply Nat.ltb_lt; exact Hl).
    reflexivity.
Qed.

(** * Instances and counterexamples *)

Lemma Execute_blocked_spawns_nothing_witness :
  (cmd_args (str "rm -rf /") (str "command") = Some (VString (str "rm -rf /")) /\
   guardCommand project_tool (w_getwd w0) (str "rm -rf /")
     (effective_cwd project_tool (cmd_args (str "rm -rf /")) (w_getwd w0)) <> []) /\
  let '(res, w') := Execute project_tool (cmd_args (str "rm -rf /")) (failing_run [] []) w0 in
  IsError res = true /\ w' = w0 /\ w_spawned w' = w_spawned w0.
Proof.
  assert (H1 : cmd_args (str "rm -rf /") (str "command") = Some (VString (str "rm -rf /")))
    by (vm_compute; reflexivity).
  assert (H2 : guardCommand project_tool (w_getwd w0) (str "rm -rf /")
     (effective_cwd project_tool (cmd_args (str "rm -rf /")) (w_getwd w0)) <> [])
    by (intro H; vm_compute in H; discriminate H).
  split; [split; assumption|].
  exact (Execute_blocked_spawns_nothing project_tool _ (failing_run [] []) w0 _ H1 H2).
Defined.

Lemma deny_takes_precedence_witness :
  matches_any (denyPatterns ls_only_tool) (ToLower (TrimSpace (str "ls; rm -rf /"))) = true /\
  guardCommand ls_only_tool (Some project) (str "ls; rm -rf /") project = msg_dangerous.
Proof.
  assert (H : matches_any (denyPatterns ls_only_tool) (ToLower (TrimSpace (str "ls; rm -rf /"))) = true)
    by (vm_compute; reflexivity).
  split; [exact H | exact (deny_takes_precedence ls_only_tool (Some project) _ project H)].
Defined.

Lemma rm_rf_blocked_at_word_start_witness :
  In deny_rm (denyPatterns (NewExecTool project false)) /\
  ascii_only (str "sudo " ++ str "RM -Rf" ++ str " /tmp/x") = true /\
  In (ToLower (str "RM -Rf")) rm_variants /\ word_start (str "sudo ") = true /\
  guardCommand (NewExecTool project false) None (str "sudo " ++ str "RM -Rf" ++ str " /tmp/x") project
  = msg_dangerous.
Proof.
  assert (H1 : In deny_rm (denyPatterns (NewExecTool project false))) by (left; reflexivity).
  assert (H2 : ascii_only (str "sudo " ++ str "RM -Rf" ++ str " /tmp/x") = true)
    by (vm_compute; reflexivity).
  assert (H3 : In (ToLower (str "RM -Rf")) rm_variants) by (vm_compute; left; reflexivity).
  assert (H4 : word_start (str "sudo ") = true) by (vm_compute; reflexivity).
  split; [exact H1|]. split; [exact H2|]. split; [exact H3|]. split; [exact H4|].
  exact (rm_rf_blocked_at_word_start _ None project _ _ _ H1 H2 H3 H4).
Defined.

(** C3: the rm pattern begins with a word boundary, so rm -rf at the end
    of a longer word is not caught. *)
Lemma rm_rf_inside_word_allowed :
  Contains (ToLower (str "confirm -rf")) (str "rm -rf") = true /\
  guardCommand (NewExecTool project false) None (str "confirm -rf") project = [] /\
  guardCommand project_tool (Some project) (str "confirm -rf") project = [].
Proof. vm_compute. split; [reflexivity|split; reflexivity]. Qed.

Lemma traversal_sequences_blocked_witness :
  restrictToWorkspace project_tool = true /\ In (str "../") confinement_needles /\
  Contains (str "cat ../secret") (str "../") = true /\
  (forall getwd cwd, guardCommand project_tool getwd (str "cat ../secret") cwd <> []) /\
  (forall args run w, args (str "command") = Some (VString (str "cat ../secret")) ->
     IsError (fst (Execute project_tool args run w)) = true /\ snd (Execute project_tool args run w) = w).
Proof.
  assert (H1 : restrictToWorkspace project_tool = true) by reflexivity.
  assert (H2 : In (str "../") confinement_needles) by (right; left; reflexivity).
  assert (H3 : Contains (str "cat ../secret") (str "../") = true) by (vm_compute; reflexivity).
  split; [exact H1|]. split; [exact H2|]. split; [exact H3|].
  exact (traversal_sequences_blocked project_tool _ _ H1 H2 H3).
Defined.

Lemma outside_path_blocked_witness :
  restrictToWorkspace project_tool = true /\ Abs (Some project) project = Some project /\
  In (str "/etc/passwd") (FindAllString pathPattern (TrimSpace (str "cat /etc/passwd"))) /\
  Abs (Some project) (str "/etc/passwd") = Some (str "/etc/passwd") /\
  Rel project (str "/etc/passwd") = Some (str "../../../etc/passwd") /\
  HasPrefix (str "../../../etc/passwd") [dot; dot] = true /\
  guardCommand project_tool (Some project) (str "cat /etc/passwd") project <> [] /\
  guardCommand project_tool (Some project) (str "cat /etc/passwd") project = msg_outside.
Proof.
  assert (H1 : restrictToWorkspace project_tool = true) by reflexivity.
  assert (H2 : Abs (Some project) project = Some project) by (vm_compute; reflexivity).
  assert (H3 : In (str "/etc/passwd") (FindAllString pathPattern (TrimSpace (str "cat /etc/passwd"))))
    by (vm_compute; left; reflexivity).
  assert (H4 : Abs (Some project) (str "/etc/passwd") = Some (str "/etc/passwd"))
    by (vm_compute; reflexivity).
  assert (H5 : Rel project (str "/etc/passwd") = Some (str "../../../etc/passwd"))
    by (vm_compute; reflexivity).
  assert (H6 : HasPrefix (str "../../../etc/passwd") [dot; dot] = true) by (vm_compute; reflexivity).
  assert (H7 : matches_any (denyPatterns project_tool) (ToLower (TrimSpace (str "cat /etc/passwd"))) = false)
    by (vm_compute; reflexivity).
  assert (H8 : forallb (fun n => negb (Contains (str "cat /etc/passwd") n)) confinement_needles = true)
    by (vm_compute; reflexivity).
  destruct (proj1 outside_path_blocked project_tool (Some project) (str "cat /etc/passwd") project
              project _ _ _ H1 H2 H3 H4 H5 H6) as [Hb Ho].
  do 7 (split; [assumption|]).
  exact (Ho H7 (or_introl eq_refl) H8).
Defined.

(** A path naming a place outside the working directory through [..]
    is blocked by the earlier traversal check, not as a path outside the
    working dir; and a Windows-form match runs over spaces, so it can
    swallow a POSIX path that would be blocked on its own. *)
Lemma outside_path_reason_and_drive_match :
  In (str "/home/user/project/../../etc/passwd")
     (FindAllString pathPattern (str "cat /home/user/project/../../etc/passwd")) /\
  Abs (Some project) (str "/home/user/project/../../etc/passwd") = Some (str "/home/etc/passwd") /\
  Rel project (str "/home/etc/passwd") = Some (str "../../etc/passwd") /\
  guardCommand project_tool (Some project) (str "cat /home/user/project/../../etc/passwd") project
  = msg_traversal /\ msg_traversal <> msg_outside /\
  FindAllString pathPattern (str "cat C:\x /etc/passwd") = [str "C:\x /etc/passwd"] /\
  guardCommand project_tool (Some project) (str "cat C:\x /etc/passwd") project = [] /\
  guardCommand project_tool (Some project) (str "cat /etc/passwd") project = msg_outside.
Proof.
  split; [vm_compute; left; reflexivity|].
  split; [vm_compute; reflexivity|]. split; [vm_compute; reflexivity|].
  split; [vm_compute; reflexivity|]. split; [intro H; vm_compute in H; discriminate H|].
  split; [vm_compute; reflexivity|]. split; vm_compute; reflexivity.
Qed.

(** C5 (defect): the Windows drive-letter half of pathPattern,
    [A-Za-z]:\\[^\\\"']+, stops at a backslash or a quote but not at
    whitespace, unlike the POSIX half /[^\s\"']+.  A drive-letter token in
    a command therefore runs over the following spaces and swallows the
    POSIX path after it.  For any workspace-restricted tool with no allow
    list whose deny list lets both commands through, and a process running
    in the working directory /home/user/project: cat /etc/passwd is
    blocked as a path outside the working dir, but cat C:\x /etc/passwd
    yields the single match C:\x /etc/passwd, which resolves inside the
    working directory, and the command is allowed. *)
Theorem drive_match_hides_outside_path : forall t,
  restrictToWorkspace t = true -> allowPatterns t = [] ->
  matches_any (denyPatterns t) (ToLower (TrimSpace (str "cat C:\x /etc/passwd"))) = false ->
  matches_any (denyPatterns t) (ToLower (TrimSpace (str "cat /etc/passwd"))) = false ->
  FindAllString pathPattern (TrimSpace (str "cat C:\x /etc/passwd")) = [str "C:\x /etc/passwd"] /\
  Abs (Some project) (str "C:\x /etc/passwd") = Some (str "/home/user/project/C:\x /etc/passwd") /\
  guardCommand t (Some project) (str "cat /etc/passwd") project = msg_outside /\
  guardCommand t (Some project) (str "cat C:\x /etc/passwd") project = [].
Proof.
  intros t Hr Ha Hd1 Hd2.
  split; [vm_compute; reflexivity|]. split; [vm_compute; reflexivity|].
  split.
  - rewrite (guard_reach_paths t (Some project) _ project Hr Hd2 (or_introl Ha))
      by (vm_compute; reflexivity).
    vm_compute. reflexivity.
  - rewrite (guard_reach_paths t (Some project) _ project Hr Hd1 (or_introl Ha))
      by (vm_compute; reflexivity).
    vm_compute. reflexivity.
Qed.

Lemma drive_match_hides_outside_path_witness :
  restrictToWorkspace project_tool = true /\ allowPatterns project_tool = [] /\
  matches_any (denyPatterns project_tool) (ToLower (TrimSpace (str "cat C:\x /etc/passwd"))) = false /\
  matches_any (denyPatterns project_tool) (ToLower (TrimSpace (str "cat /etc/passwd"))) = false /\
  guardCommand project_tool (Some project) (str "cat C:\x /etc/passwd") project = [].
Proof.
  assert (H1 : restrictToWorkspace project_tool = true) by reflexivity.
  assert (H2 : allowPatterns project_tool = []) by reflexivity.
  assert (H3 : matches_any (denyPatterns project_tool)
                 (ToLower (TrimSpace (str "cat C:\x /etc/passwd"))) = false) by (vm_compute; reflexivity).
  assert (H4 : matches_any (denyPatterns project_tool)
                 (ToLower (TrimSpace (str "cat /etc/passwd"))) = false) by (vm_compute; reflexivity).
  do 4 (split; [assumption|]).
  exact (proj2 (proj2 (proj2 (drive_match_hides_outside_path project_tool H1 H2 H3 H4)))).
Defined.

Lemma allowlist_stage_witness :
  matches_any (denyPatterns ls_only_tool) (ToLower (TrimSpace (str "cat notes.txt"))) = false /\
  (allowPatterns ls_only_tool = [] ->
     guardCommand ls_only_tool (Some project) (str "cat notes.txt") project
     = if restrictToWorkspace ls_only_tool
       then workspace_checks (Some project) (TrimSpace (str "cat notes.txt")) project else []) /\
  (allowPatterns ls_only_tool <> [] ->
     matches_any (allowPatterns ls_only_tool) (ToLower (TrimSpace (str "cat notes.txt"))) = false ->
     guardCommand ls_only_tool (Some project) (str "cat notes.txt") project = msg_allowlist).
Proof.
  assert (H : matches_any (denyPatterns ls_only_tool) (ToLower (TrimSpace (str "cat notes.txt"))) = false)
    by (vm_compute; reflexivity).
  split; [exact H | exact (allowlist_stage ls_only_tool (Some project) _ project H)].
Defined.

(** C6: with an empty allow list and no deny match, the workspace checks
    can still block. *)
Lemma empty_allowlist_still_blocks :
  matches_any (denyPatterns project_tool) (ToLower (TrimSpace (str "cat ../secret"))) = false /\
  allowPatterns project_tool = [] /\
  guardCommand project_tool (Some project) (str "cat ../secret") project = msg_traversal.
Proof. split; [vm_compute; reflexivity|]. split; [reflexivity | vm_compute; reflexivity]. Qed.

Lemma uppercase_encoding_allowed_witness :
  guardCommand project_tool (Some project) (str "cat %2E%2E%2Fetc%2Fpasswd") project = [].
Proof.
  apply uppercase_encoding_allowed.
  - reflexivity.
  - vm_compute; reflexivity.
  - left; reflexivity.
  - vm_compute; reflexivity.
  - intros cwdPath tok p r _ Hin. vm_compute in Hin. destruct Hin.
Defined.

(** C10: the claim leaves out the allow list: with a non-empty one, the
    same command is blocked as not in the allowlist. *)
Lemma uppercase_encoding_allowlist_blocks :
  restrictToWorkspace ls_only_tool = true /\
  matches_any (denyPatterns ls_only_tool) (ToLower (TrimSpace (str "cat %2E%2E%2Fetc%2Fpasswd"))) = false /\
  forallb (fun n => negb (Contains (str "cat %2E%2E%2Fetc%2Fpasswd") n)) confinement_needles = true /\
  FindAllString pathPattern (TrimSpace (str "cat %2E%2E%2Fetc%2Fpasswd")) = [] /\
  guardCommand ls_only_tool (Some project) (str "cat %2E%2E%2Fetc%2Fpasswd") project = msg_allowlist.
Proof. repeat split; vm_compute; reflexivity. Qed.

Lemma SetAllowPatterns_failure_not_atomic_witness :
  (toy_compile (str "ls") = Some (lit (str "ls")) /\ toy_compile (str "(") = None) /\
  let t1 := fst (SetAllowPatterns toy_compile (NewExecTool project false) [str "ls"]) in
  let t2 := fst (SetAllowPatterns toy_compile t1 [str "("]) in
  snd (SetAllowPatterns toy_compile t1 [str "("]) = Some (InvalidAllowPattern (str "(")) /\
  guardCommand t1 None (str "cat notes.txt") project = msg_allowlist /\
  allowPatterns t2 = [] /\ allowPatterns t2 <> allowPatterns t1 /\
  guardCommand t2 None (str "cat notes.txt") project = [].
Proof.
  assert (H1 : toy_compile (str "ls") = Some (lit (str "ls"))) by (vm_compute; reflexivity).
  assert (H2 : toy_compile (str "(") = None) by (vm_compute; reflexivity).
  split; [split; assumption|].
  exact (SetAllowPatterns_failure_not_atomic toy_compile H1 H2).
Defined.

Lemma timeout_outcome_distinct_witness :
  fst (Execute (SetTimeout project_tool Second) (cmd_args (str "sleep 120"))
         (timed_out_run (str "partial")) w0)
  = {| ForLLM := str "Command timed out after " ++ DurationString Second;
       ForUser := str "Command timed out after " ++ DurationString Second;
       IsError := true |}
  /\ (forall o e, run_err o = Some e -> ctx_err o <> CtxDeadlineExceeded ->
      ForLLM (finish (SetTimeout project_tool Second) o) <> timeout_msg (SetTimeout project_tool Second)
      /\ ForUser (finish (SetTimeout project_tool Second) o) <> timeout_msg (SetTimeout project_tool Second)).
Proof.
  apply (timeout_outcome_distinct (SetTimeout project_tool Second) (cmd_args (str "sleep 120"))
           (timed_out_run (str "partial")) w0 (str "sleep 120")).
  - vm_compute; reflexivity.
  - vm_compute; reflexivity.
  - vm_compute; discriminate.
  - vm_compute; reflexivity.
Defined.

Lemma failed_run_result_witness :
  IsError (fst (Execute project_tool (cmd_args (str "sh fail.sh")) (failing_run [] (str "boom")) w0))
  = true.
Proof.
  apply (failed_run_result project_tool (cmd_args (str "sh fail.sh")) (failing_run [] (str "boom"))
           w0 (str "sh fail.sh") (str "exit status 1")).
  - vm_compute; reflexivity.
  - vm_compute; reflexivity.
  - vm_compute; reflexivity.
  - vm_compute; discriminate.
Defined.

(** C9: when the output runs over maxLen bytes, the truncation drops the
    STDERR section and the exit-code marker. *)
Lemma long_failure_loses_markers :
  let res := fst (Execute (NewExecTool project false) (cmd_args (str "sh fail.sh"))
                    (failing_run (repeat "a"%char 10000) (str "boom")) w0) in
  IsError res = true /\ Contains (ForLLM res) (str "STDERR:") = false /\
  Contains (ForLLM res) (str "Exit code: ") = false.
Proof. vm_compute. split; [reflexivity | split; reflexivity]. Qed.

(** * Further properties of the code *)

(** ** Whitespace and letter case in guardCommand *)

Lemma head_trim_left : forall s, trim_left s = [] \/ head_nonspace (trim_left s) = true.
Proof.
  induction s as [|c s IH]; simpl; [left; reflexivity|].
  destruct (is_space_byte c) eqn:E; [exact IH|]. right. simpl. rewrite E. reflexivity.
Qed.

Lemma trim_left_idem : forall s, trim_left (trim_left s) = trim_left s.
Proof.
  intros s. destruct (head_trim_left s) as [H|H]; [rewrite H; reflexivity|].
  rewrite <- (app_nil_r (trim_left s)) at 1. rewrite trim_left_nospace_head by exact H.
  apply app_nil_r.
Qed.

Lemma trim_left_spaces : forall a x, forallb is_space_byte a = true -> trim_left (a ++ x) = trim_left x.
Proof. intros a x H. rewrite trim_left_app, H. reflexivity. Qed.

Lemma trim_left_all_space : forall a, forallb is_space_byte a = true -> trim_left a = [].
Proof. intros a H. rewrite <- (app_nil_r a). rewrite trim_left_spaces by exact H. reflexivity. Qed.

Lemma forallb_rev_space : forall a, forallb is_space_byte (rev a) = forallb is_space_byte a.
Proof.
  induction a as [|c a IH]; [reflexivity|]. simpl. rewrite forallb_app, IH. simpl.
  rewrite andb_true_r, andb_comm. reflexivity.
Qed.

Lemma TrimSpace_pad : forall a c b,
  forallb is_space_byte a = true -> forallb is_space_byte b = true ->
  TrimSpace (a ++ c ++ b) = TrimSpace c.
Proof.
  intros a c b Ha Hb. unfold TrimSpace. rewrite trim_left_spaces by exact Ha.
  rewrite trim_left_app. destruct (forallb is_space_byte c) eqn:Hc.
  - rewrite (trim_left_all_space c Hc), (trim_left_all_space b Hb). reflexivity.
  - rewrite rev_app_distr, trim_left_spaces by (rewrite forallb_rev_space; exact Hb).
    reflexivity.
Qed.

Lemma to_lower_byte_idem : forall c, to_lower_byte (to_lower_byte c) = to_lower_byte c.
Proof. intros [[] [] [] [] [] [] [] []]; reflexivity. Qed.

Lemma ToLower_idem : forall s, ToLower (ToLower s) = ToLower s.
Proof.
  intros s. unfold ToLower. rewrite map_map. apply map_ext. apply to_lower_byte_idem.
Qed.

Lemma trim_left_lower : forall s, trim_left (ToLower s) = ToLower (trim_left s).
Proof.
  induction s as [|c s IH]; [reflexivity|]. simpl. rewrite is_space_lower.
  destruct (is_space_byte c); [exact IH | reflexivity].
Qed.

Lemma TrimSpace_lower : forall s, TrimSpace (ToLower s) = ToLower (TrimSpace s).
Proof.
  intros s. unfold TrimSpace. rewrite trim_left_lower. unfold ToLower at 1.
  rewrite <- map_rev. fold (ToLower (rev (trim_left s))). rewrite trim_left_lower.
  unfold ToLower. rewrite map_rev. reflexivity.
Qed.

Lemma lower_trim_lower : forall s, ToLower (TrimSpace (ToLower s)) = ToLower (TrimSpace s).
Proof. intros s. rewrite TrimSpace_lower, ToLower_idem. reflexivity. Qed.

Ltac in_list := simpl; repeat (first [left; reflexivity | right]).

Lemma check_paths_cases : forall getwd cwdPath ms,
  check_paths getwd cwdPath ms = [] \/ check_paths getwd cwdPath ms = msg_outside.
Proof.
  intros getwd cwdPath ms. induction ms as [|raw ms IH]; cbn [check_paths]; [left; reflexivity|].
  destruct (Abs getwd raw) as [p|]; [|exact IH].
  destruct (Rel cwdPath p) as [r|]; [|exact IH].
  destruct (HasPrefix r [dot; dot]); [right; reflexivity | exact IH].
Qed.

Lemma workspace_checks_cases : forall getwd cmd cwd,
  In (workspace_checks getwd cmd cwd) [msg_traversal; msg_encoded; msg_null; []; msg_outside].
Proof.
  intros getwd cmd cwd. unfold workspace_checks.
  destruct (_ || _); [in_list|].
  destruct (_ || _ || _ || _); [in_list|].
  destruct (_ || _); [in_list|].
  destruct (Abs getwd cwd) as [cwdPath|]; [|in_list].
  destruct (check_paths_cases getwd cwdPath (FindAllString pathPattern cmd)) as [-> | ->];
    in_list.
Qed.

Lemma guard_dangerous_iff : forall t getwd command cwd,
  guardCommand t getwd command cwd = msg_dangerous <->
  matches_any (denyPatterns t) (ToLower (TrimSpace command)) = true.
Proof.
  intros t getwd command cwd. unfold guardCommand.
  destruct (matches_any (denyPatterns t) _); [tauto|]. split; [|discriminate]. intros H.
  destruct (_ && _); [vm_compute in H; discriminate H|].
  destruct (restrictToWorkspace t); [|vm_compute in H; discriminate H].
  pose proof (workspace_checks_cases getwd (TrimSpace command) cwd) as Hc.
  rewrite H in Hc. vm_compute in Hc. intuition discriminate.
Qed.

Lemma guard_allowlist_iff : forall t getwd command cwd,
  guardCommand t getwd command cwd = msg_allowlist <->
  matches_any (denyPatterns t) (ToLower (TrimSpace command)) = false /\
  (0 <? length (allowPatterns t)) && negb (matches_any (allowPatterns t) (ToLower (TrimSpace command)))
  = true.
Proof.
  intros t getwd command cwd. unfold guardCommand.
  destruct (matches_any (denyPatterns t) _).
  - split; [intros H; vm_compute in H; discriminate H | intros [H _]; discriminate H].
  - destruct (_ && _); [tauto|]. split; [|intros [_ H]; discriminate H]. intros H.
    destruct (restrictToWorkspace t); [|vm_compute in H; discriminate H].
    pose proof (workspace_checks_cases getwd (TrimSpace command) cwd) as Hc.
    rewrite H in Hc. vm_compute in Hc. intuition discriminate.
Qed.

(** X1: guardCommand trims its input: padding a command with whitespace
    (space, tab, newline, vertical tab, form feed, carriage return) on
    either side never changes the verdict. *)
Theorem guard_whitespace_padding : forall t getwd a command b cwd,
  forallb is_space_byte a = true -> forallb is_space_byte b = true ->
  guardCommand t getwd (a ++ command ++ b) cwd = guardCommand t getwd command cwd.
Proof.
  intros t getwd a command b cwd Ha Hb. unfold guardCommand.
  rewrite TrimSpace_pad by assumption. reflexivity.
Qed.

(** X2: the deny and allow lists see the command lowercased: a command is
    blocked as dangerous, or as not in the allowlist, exactly when its
    lowercase form is; with the workspace restriction off the whole
    verdict is the same for a command and its lowercase form. *)
Theorem guard_case_insensitive : forall t getwd command cwd,
  (guardCommand t getwd (ToLower command) cwd = msg_dangerous <->
   guardCommand t getwd command cwd = msg_dangerous) /\
  (guardCommand t getwd (ToLower command) cwd = msg_allowlist <->
   guardCommand t getwd command cwd = msg_allowlist) /\
  (restrictToWorkspace t = false ->
   guardCommand t getwd (ToLower command) cwd = guardCommand t getwd command cwd).
Proof.
  intros t getwd command cwd.
  rewrite !guard_dangerous_iff, !guard_allowlist_iff, !lower_trim_lower.
  split; [tauto|]. split; [tauto|].
  intros Hr. unfold guardCommand. rewrite lower_trim_lower, Hr. reflexivity.
Qed.

(** X3: guardCommand answers with one of seven texts: the empty string
    (allowed) or one of the six reasons; with the workspace restriction
    off only the deny and allowlist reasons can occur. *)
Theorem guard_verdicts : forall t getwd command cwd,
  In (guardCommand t getwd command cwd)
     [[]; msg_dangerous; msg_allowlist; msg_traversal; msg_encoded; msg_null; msg_outside] /\
  (restrictToWorkspace t = false ->
   In (guardCommand t getwd command cwd) [[]; msg_dangerous; msg_allowlist]).
Proof.
  intros t getwd command cwd. unfold guardCommand.
  destruct (matches_any (denyPatterns t) _); [split; [|intros _]; in_list|].
  destruct (_ && _); [split; [|intros _]; in_list|].
  destruct (restrictToWorkspace t); [|split; [|intros _]; in_list].
  split; [|discriminate].
  pose proof (workspace_checks_cases getwd (TrimSpace command) cwd) as Hc.
  simpl in Hc |- *. tauto.
Qed.

(** ** Execute: the argument map and the process it starts *)

(** X4: without a string under the key command (missing, or of another
    type), Execute returns the error result command is required and starts
    no process. *)
Theorem Execute_missing_command : forall t args run w,
  (forall c, args (str "command") <> Some (VString c)) ->
  Execute t args run w = (ErrorResult (str "command is required"), w).
Proof.
  intros t args run w H. unfold Execute.
  destruct (args (str "command")) as [[c|]|]; [exfalso; exact (H c eq_refl) | reflexivity | reflexivity].
Qed.

(** X5: a command that passes the guard is run exactly once, as sh -c
    command, under the tool's timeout, in the directory the guard checked:
    the working_dir argument when it is a non-empty string, otherwise the
    tool's working directory when it is not empty, otherwise the process's
    working directory (os.Getwd) when it is known and not empty; with none
    of them the directory is left unset.  The run's outcome is what
    Execute turns into its result. *)
Theorem Execute_spawn : forall t args run w command,
  args (str "command") = Some (VString command) ->
  guardCommand t (w_getwd w) command (effective_cwd t args (w_getwd w)) = [] ->
  let req := spawn_request t command (effective_cwd t args (w_getwd w)) in
  Execute t args run w
    = (finish t (run req), {| w_getwd := w_getwd w; w_spawned := w_spawned w ++ [req] |}) /\
  argv req = [str "sh"; str "-c"; command] /\ deadline req = timeout t /\
  (forall wd, args (str "working_dir") = Some (VString wd) -> wd <> [] -> dir req = Some wd) /\
  ((forall wd, args (str "working_dir") = Some (VString wd) -> wd = []) ->
   (workingDir t <> [] -> dir req = Some (workingDir t)) /\
   (workingDir t = [] ->
    dir req = match w_getwd w with Some [] | None => None | Some g => Some g end)).
Proof.
  intros t args run w command Ha Hg req.
  split; [exact (Execute_runs t args run w command Ha Hg)|].
  split; [reflexivity|]. split; [reflexivity|].
  unfold req, spawn_request, effective_cwd. cbn [dir]. split.
  - intros wd Hw Hne. rewrite Hw. destruct wd as [|c wd]; [contradiction|]. reflexivity.
  - intros Hno.
    assert (Hcwd : match args (str "working_dir") with
                   | Some (VString wd) => if is_nil wd then workingDir t else wd
                   | _ => workingDir t end = workingDir t).
    { destruct (args (str "working_dir")) as [[wd|]|] eqn:E; try reflexivity.
      rewrite (Hno wd eq_refl). reflexivity. }
    rewrite Hcwd. split.
    + intros Hne. destruct (workingDir t) as [|c wd]; [contradiction|]. reflexivity.
    + intros ->. destruct (w_getwd w) as [[|c g]|]; reflexivity.
Qed.

(** ** The setters *)

(** X6: turning the workspace restriction off keeps the deny and
    allowlist verdicts and allows everything else: the unrestricted
    verdict is the restricted one when that is dangerous pattern or not
    in allowlist, and allowed otherwise.  In particular a command allowed
    under the restriction is allowed without it. *)
Theorem restriction_only_adds_checks : forall t getwd command cwd,
  let v := guardCommand (SetRestrictToWorkspace t true) getwd command cwd in
  guardCommand (SetRestrictToWorkspace t false) getwd command cwd
  = (if gstr_eqb v msg_dangerous || gstr_eqb v msg_allowlist then v else []).
Proof.
  intros t getwd command cwd v. unfold v, guardCommand, SetRestrictToWorkspace.
  cbn [denyPatterns allowPatterns restrictToWorkspace].
  destruct (matches_any (denyPatterns t) _); [reflexivity|].
  destruct (_ && _); [reflexivity|].
  pose proof (workspace_checks_cases getwd (TrimSpace command) cwd) as Hc.
  simpl in Hc. repeat destruct Hc as [<-|Hc]; try reflexivity. destruct Hc.
Qed.

Lemma compile_loop_acc : forall compile ps acc,
  compile_loop compile ps acc
  = (acc ++ fst (compile_loop compile ps []), snd (compile_loop compile ps [])).
Proof.
  intros compile ps. induction ps as [|p ps IH]; intros acc; simpl.
  - rewrite app_nil_r. reflexivity.
  - destruct (compile p) as [re|]; simpl; [|rewrite app_nil_r; reflexivity].
    rewrite (IH (acc ++ [re])), (IH [re]). simpl. rewrite <- app_assoc. reflexivity.
Qed.

Lemma compile_loop_ok : forall compile ps rs acc,
  map compile ps = map Some rs -> compile_loop compile ps acc = (acc ++ rs, None).
Proof.
  intros compile ps. induction ps as [|p ps IH]; intros rs acc H; destruct rs as [|r rs];
    try discriminate H; simpl in *.
  - rewrite app_nil_r. reflexivity.
  - injection H as Hp Hps. rewrite Hp, (IH rs _ Hps), <- app_assoc. reflexivity.
Qed.

Lemma compile_loop_fail : forall compile ps1 p ps2 rs acc,
  map compile ps1 = map Some rs -> compile p = None ->
  compile_loop compile (ps1 ++ p :: ps2) acc = (acc ++ rs, Some (InvalidAllowPattern p)).
Proof.
  intros compile ps1. induction ps1 as [|q ps1 IH]; intros p ps2 rs acc H Hp;
    destruct rs as [|r rs]; try discriminate H; simpl in *.
  - rewrite Hp, app_nil_r. reflexivity.
  - injection H as Hq Hps. rewrite Hq, (IH p ps2 rs _ Hps Hp), <- app_assoc. reflexivity.
Qed.

Lemma compile_loop_none : forall compile ps acc,
  snd (compile_loop compile ps acc) = None ->
  exists rs, map compile ps = map Some rs /\ fst (compile_loop compile ps acc) = acc ++ rs.
Proof.
  intros compile ps. induction ps as [|p ps IH]; intros acc H; simpl in *.
  - exists []. rewrite app_nil_r. split; reflexivity.
  - destruct (compile p) as [re|] eqn:E; [|discriminate H].
    destruct (IH _ H) as (rs & Hm & Hf). exists (re :: rs). simpl. rewrite Hm, Hf, <- app_assoc.
    split; reflexivity.
Qed.

(** X7: SetAllowPatterns compiles the patterns in order.  When all of
    them compile, the allow list becomes their compiled forms in that
    order and no error is returned; otherwise the error names the first
    pattern that does not compile and the allow list holds the patterns
    before it.  The other fields are kept in both cases. *)
Theorem SetAllowPatterns_result : forall compile t ps1 rs,
  map compile ps1 = map Some rs ->
  let t' := {| workingDir := workingDir t; timeout := timeout t; denyPatterns := denyPatterns t;
               allowPatterns := rs; restrictToWorkspace := restrictToWorkspace t |} in
  SetAllowPatterns compile t ps1 = (t', None) /\
  (forall p ps2, compile p = None ->
   SetAllowPatterns compile t (ps1 ++ p :: ps2) = (t', Some (InvalidAllowPattern p))).
Proof.
  intros compile t ps1 rs H t'. unfold SetAllowPatterns. split.
  - rewrite (compile_loop_ok compile ps1 rs [] H). reflexivity.
  - intros p ps2 Hp. rewrite (compile_loop_fail compile ps1 p ps2 rs [] H Hp). reflexivity.
Qed.

(** X8: once an allow list is configured, configuring a longer one (more
    patterns after the same ones, all compiling) never blocks a command
    the shorter one allowed. *)
Theorem allow_list_extension : forall compile t ps qs getwd command cwd,
  ps <> [] ->
  snd (SetAllowPatterns compile t (ps ++ qs)) = None ->
  guardCommand (fst (SetAllowPatterns compile t ps)) getwd command cwd = [] ->
  guardCommand (fst (SetAllowPatterns compile t (ps ++ qs))) getwd command cwd = [].
Proof.
  intros compile t ps qs getwd command cwd Hne Hok Hg.
  unfold SetAllowPatterns in *.
  destruct (compile_loop compile (ps ++ qs) []) as [f e] eqn:E. cbn [snd] in Hok. subst e.
  destruct (compile_loop_none compile (ps ++ qs) []) as (rs & Hm & Hf); [rewrite E; reflexivity|].
  rewrite E in Hf. cbn [fst] in Hf. subst f.
  rewrite map_app in Hm. symmetry in Hm. apply map_eq_app in Hm as (rs1 & rs2 & -> & H1 & H2).
  rewrite (compile_loop_ok compile ps rs1 [] (eq_sym H1)) in Hg.
  cbn [fst app] in *. unfold guardCommand in *. cbn [denyPatterns allowPatterns restrictToWorkspace] in *.
  destruct (matches_any (denyPatterns t) _); [vm_compute in Hg; discriminate Hg|].
  assert (Hl : rs1 <> []).
  { intros ->. destruct ps; [contradiction | discriminate H1]. }
  destruct rs1 as [|r rs1]; [contradiction|].
  cbn [app length Nat.ltb Nat.leb andb] in *.
  destruct (matches_any (r :: rs1) (ToLower (TrimSpace command))) eqn:Em;
    [|vm_compute in Hg; discriminate Hg].
  assert (Hm : matches_any (r :: rs1 ++ rs2) (ToLower (TrimSpace command)) = true).
  { change (r :: rs1 ++ rs2) with ((r :: rs1) ++ rs2). unfold matches_any in *.
    rewrite existsb_app, Em. reflexivity. }
  rewrite Hm. exact Hg.
Qed.

(** ** The result of a successful run *)

Lemma finish_success : forall t o,
  run_err o = None ->
  finish t o =
  (let out := stdout o ++ (if is_nil (stderr o) then [] else nl :: str "STDERR:" ++ nl :: stderr o) in
   let out := if is_nil out then str "(no output)" else out in
   let out := if maxLen <? length out then truncated out else out in
   {| ForLLM := out; ForUser := out; IsError := false |}).
Proof.
  intros t [so se re ce] He. cbn [run_err] in He. subst re. unfold finish, truncated.
  cbn [run_err ctx_err stdout stderr]. reflexivity.
Qed.

(** X9: when the started process succeeds, Execute returns a result that
    is not an error, with the same text for the model and the user: the
    standard output followed (when the error stream is not empty) by a
    newline, STDERR:, a newline and the error stream; (no output) when
    both streams are empty; and, beyond maxLen bytes, the first maxLen
    bytes and the truncation note. *)
Theorem successful_run_result : forall t args run w command,
  args (str "command") = Some (VString command) ->
  guardCommand t (w_getwd w) command (effective_cwd t args (w_getwd w)) = [] ->
  run_err (run (spawn_request t command (effective_cwd t args (w_getwd w)))) = None ->
  let o := run (spawn_request t command (effective_cwd t args (w_getwd w))) in
  let out := stdout o ++ (if is_nil (stderr o) then [] else nl :: str "STDERR:" ++ nl :: stderr o) in
  let res := fst (Execute t args run w) in
  IsError res = false /\ ForUser res = ForLLM res /\
  (out = [] -> ForLLM res = str "(no output)") /\
  (out <> [] -> length out <= maxLen -> ForLLM res = out) /\
  (maxLen < length out ->
   ForLLM res = firstn maxLen out ++ nl :: str "... (truncated, "
                  ++ fmtInt (Z.of_nat (length out - maxLen)) ++ str " more chars)").
Proof.
  intros t args run w command Ha Hg He o out res. unfold res.
  rewrite (Execute_runs t args run w command Ha Hg). cbn [fst].
  rewrite (finish_success t _ He). cbv beta zeta. fold o. fold out.
  split; [destruct (maxLen <? _); reflexivity|].
  split; [destruct (maxLen <? _); reflexivity|].
  split; [|split].
  - intros Hn. rewrite Hn. reflexivity.
  - intros Hn Hl. destruct out as [|c out']; [contradiction|]. cbn [is_nil].
    replace (maxLen <? length (c :: out')) with false by (symmetry; apply Nat.ltb_ge; exact Hl).
    reflexivity.
  - intros Hl. destruct out as [|c out']; [cbn in Hl; unfold maxLen in Hl; lia|]. cbn [is_nil].
    replace (maxLen <? length (c :: out')) with true by (symmetry; apply Nat.ltb_lt; exact Hl).
    reflexivity.
Qed.

(** ** fmt %d and time.Duration.String *)

(** The value of a string of decimal digits. *)
Definition is_digit (c : ascii) : bool := in_range 48 57 c.
Definition decimal_step (acc : Z) (c : ascii) : Z := (acc * 10 + (Z.of_nat (nat_of_ascii c) - 48))%Z.
Definition decimal_value (s : gstr) : Z := fold_left decimal_step s 0%Z.

Lemma decimal_value_snoc : forall s c,
  decimal_value (s ++ [c]) = (decimal_value s * 10 + (Z.of_nat (nat_of_ascii c) - 48))%Z.
Proof. intros s c. unfold decimal_value. rewrite fold_left_app. reflexivity. Qed.

Lemma digit_char_value : forall d, (0 <= d < 10)%Z ->
  (Z.of_nat (nat_of_ascii (digit_char d)) - 48 = d)%Z /\ is_digit (digit_char d) = true /\
  (d <> 0 -> digit_char d <> "0"%char)%Z.
Proof.
  intros d Hd.
  assert (d = 0 \/ d = 1 \/ d = 2 \/ d = 3 \/ d = 4 \/ d = 5 \/ d = 6 \/ d = 7 \/ d = 8 \/ d = 9)%Z
    as Hc by lia.
  repeat destruct Hc as [->|Hc]; try subst d;
    (split; [reflexivity | split; [reflexivity | intros H; first [discriminate | exfalso; apply H; reflexivity]]]).
Qed.

Lemma digit_char_zero_value : forall d, (0 <= d < 10)%Z -> d = 0%Z -> digit_char d = "0"%char.
Proof. intros d _ ->. reflexivity. Qed.

Lemma fmt_int_loop_spec : forall fuel v acc,
  (0 <= v < 10 ^ Z.of_nat fuel)%Z ->
  exists ds, fmt_int_loop fuel v acc = ds ++ acc /\ decimal_value ds = v /\
             forallb is_digit ds = true /\
             (v = 0%Z -> ds = []) /\
             (0 < v -> exists c r, ds = c :: r /\ c <> "0"%char)%Z.
Proof.
  induction fuel as [|n IH]; intros v acc Hv; cbn [fmt_int_loop].
  - assert (v = 0%Z) by (simpl in Hv; lia). subst v.
    exists []. repeat split; try reflexivity. intros H; lia.
  - destruct (v <=? 0)%Z eqn:Ev.
    + apply Z.leb_le in Ev. assert (v = 0%Z) by lia. subst v.
      exists []. repeat split; try reflexivity. intros H; lia.
    + apply Z.leb_gt in Ev.
      assert (Hm : (0 <= v mod 10 < 10)%Z) by (apply Z.mod_pos_bound; lia).
      assert (Hq : (0 <= v / 10 < 10 ^ Z.of_nat n)%Z).
      { rewrite Nat2Z.inj_succ, Z.pow_succ_r in Hv by lia.
        split; [apply Z.div_pos; lia | apply Z.div_lt_upper_bound; lia]. }
      destruct (IH (v / 10)%Z (digit_char (v mod 10) :: acc) Hq) as (ds & E & Hd & Hdig & H0 & Hlead).
      destruct (digit_char_value (v mod 10) Hm) as (Hval & Hisd & Hnz).
      exists (ds ++ [digit_char (v mod 10)]). rewrite E, <- app_assoc. split; [reflexivity|].
      split; [rewrite decimal_value_snoc, Hd, Hval; pose proof (Z.div_mod v 10); lia|].
      split; [rewrite forallb_app, Hdig; cbn [forallb andb]; rewrite Hisd; reflexivity|].
      split; [intros; lia|]. intros _.
      destruct (Z.eq_dec (v / 10) 0) as [Hz|Hz].
      * rewrite (H0 Hz). exists (digit_char (v mod 10)), []. split; [reflexivity|].
        apply Hnz. pose proof (Z.div_mod v 10). lia.
      * destruct (Hlead ltac:(lia)) as (c & r & -> & Hc). exists c, (r ++ [digit_char (v mod 10)]).
        split; [reflexivity | exact Hc].
Qed.

(** X10: fmt %d of a non-negative int (fmtInt), used for the count in the
    truncation note and in time.Duration.String, is the canonical decimal
    numeral: digits only, reading back as the number, 0 for zero and no
    leading zero otherwise. *)
Theorem fmtInt_decimal : forall v, (0 <= v)%Z ->
  decimal_value (fmtInt v) = v /\ forallb is_digit (fmtInt v) = true /\
  (v = 0%Z -> fmtInt v = str "0") /\
  (0 < v -> exists c r, fmtInt v = c :: r /\ c <> "0"%char)%Z.
Proof.
  intros v Hv. unfold fmtInt. destruct (v =? 0)%Z eqn:E.
  - apply Z.eqb_eq in E. subst v. repeat split; try reflexivity. intros H; lia.
  - apply Z.eqb_neq in E.
    assert (Hb : (0 <= v < 10 ^ Z.of_nat (S (Z.to_nat (Z.log2 v))))%Z).
    { split; [lia|]. rewrite Nat2Z.inj_succ, Z2Nat.id by apply Z.log2_nonneg.
      apply Z.lt_le_trans with (2 ^ Z.succ (Z.log2 v))%Z.
      - apply Z.log2_spec. lia.
      - apply Z.pow_le_mono_l. split; [lia|lia]. }
    destruct (fmt_int_loop_spec _ v [] Hb) as (ds & Hds & Hd & Hdig & _ & Hlead).
    rewrite Hds, app_nil_r. split; [exact Hd|]. split; [exact Hdig|].
    split; [intros; lia|]. exact Hlead.
Qed.

Lemma fmt_frac_loop_zeros : forall k m acc, (0 <= m)%Z ->
  fmt_frac_loop k (m * 10 ^ Z.of_nat k)%Z false acc = (false, acc, m).
Proof.
  induction k as [|k IH]; intros m acc Hm; cbn [fmt_frac_loop].
  - rewrite Z.mul_1_r. reflexivity.
  - rewrite Nat2Z.inj_succ, Z.pow_succ_r by lia.
    replace (m * (10 * 10 ^ Z.of_nat k))%Z with (m * 10 ^ Z.of_nat k * 10)%Z by ring.
    rewrite Z_mod_mult, Z_div_mult by lia. cbn [orb negb Z.eqb].
    apply IH. exact Hm.
Qed.

(** X11: time.Duration.String of a positive whole number n of seconds,
    as in the timeout message: ns under a minute, then minutes and
    seconds, then hours, minutes and seconds, with no fraction. *)
Theorem DurationString_seconds : forall n, (0 < n)%Z ->
  DurationString (n * Second)%Z =
  if (n <? 60)%Z then fmtInt n ++ str "s"
  else if (n <? 3600)%Z then fmtInt (n / 60) ++ str "m" ++ fmtInt (n mod 60) ++ str "s"
  else fmtInt (n / 3600) ++ str "h" ++ fmtInt (n / 60 mod 60) ++ str "m"
         ++ fmtInt (n mod 60) ++ str "s".
Proof.
  intros n Hn. unfold DurationString.
  assert (Hs : Second = (10 ^ Z.of_nat 9)%Z) by reflexivity.
  assert (Hpos : (0 < n * Second)%Z) by (unfold Second; lia).
  rewrite Z.abs_eq by lia.
  replace ((n * Second) <? Second)%Z with false by (symmetry; apply Z.ltb_ge; unfold Second; lia).
  replace ((n * Second) <? 0)%Z with false by (symmetry; apply Z.ltb_ge; lia).
  unfold fmtFrac. rewrite Hs, fmt_frac_loop_zeros by lia. cbv beta iota zeta. cbn [app].
  rewrite Z.div_div by lia. change (60 * 60)%Z with 3600%Z.
  destruct (n <? 60)%Z eqn:E60.
  - apply Z.ltb_lt in E60.
    replace (0 <? n / 60)%Z with false by (symmetry; apply Z.ltb_ge; rewrite Z.div_small; lia).
    rewrite Z.mod_small by lia. reflexivity.
  - apply Z.ltb_ge in E60.
    replace (0 <? n / 60)%Z with true by (symmetry; apply Z.ltb_lt; apply Z.div_str_pos; lia).
    destruct (n <? 3600)%Z eqn:E3600.
    + apply Z.ltb_lt in E3600.
      replace (0 <? n / 3600)%Z with false by (symmetry; apply Z.ltb_ge; rewrite Z.div_small; lia).
      rewrite (Z.mod_small (n / 60)) by (split; [apply Z.div_pos; lia | apply Z.div_lt_upper_bound; lia]).
      rewrite <- app_assoc. reflexivity.
    + apply Z.ltb_ge in E3600.
      replace (0 <? n / 3600)%Z with true by (symmetry; apply Z.ltb_lt; apply Z.div_str_pos; lia).
      rewrite <- !app_assoc. reflexivity.
Qed.

(** ** path/filepath on absolute paths *)

Definition no_slash (w : gstr) : bool := forallb (fun c => negb (Ascii.eqb c slash)) w.

(** An element of a cleaned rooted path: not empty, no slash, neither
    [.] nor [..]. *)
Definition clean_word (w : gstr) : bool :=
  negb (is_nil w) && no_slash w && negb (gstr_eqb w [dot]) && negb (gstr_eqb w [dot; dot]).

Lemma gstr_eqb_eq : forall a b, gstr_eqb a b = true <-> a = b.
Proof.
  induction a as [|x a IH]; intros [|y b]; simpl; try (split; congruence).
  rewrite andb_true_iff, Ascii.eqb_eq, IH. split; [intros [-> ->]; reflexivity | intros H; injection H; auto].
Qed.

Lemma gstr_eqb_refl : forall a, gstr_eqb a a = true.
Proof. intros a. apply gstr_eqb_eq. reflexivity. Qed.

Lemma gstr_eqb_neq : forall a b, a <> b -> gstr_eqb a b = false.
Proof. intros a b H. destruct (gstr_eqb a b) eqn:E; [apply gstr_eqb_eq in E; contradiction | reflexivity]. Qed.

Lemma forallb_rev_gen : forall {A} (f : A -> bool) l, forallb f (rev l) = forallb f l.
Proof.
  intros A f l. induction l as [|x l IH]; [reflexivity|]. simpl. rewrite forallb_app, IH. simpl.
  rewrite andb_true_r, andb_comm. reflexivity.
Qed.

Lemma split_on_no_slash : forall s w, In w (split_on slash s) -> no_slash w = true.
Proof.
  induction s as [|c s IH]; intros w Hin; simpl in Hin.
  - destruct Hin as [<-|[]]. reflexivity.
  - destruct (Ascii.eqb c slash) eqn:Ec.
    + destruct Hin as [<-|Hin]; [reflexivity | apply IH, Hin].
    + destruct (split_on slash s) as [|w0 ws] eqn:Es.
      * destruct Hin as [<-|[]]. unfold no_slash. simpl. rewrite Ec. reflexivity.
      * destruct Hin as [<-|Hin].
        -- unfold no_slash in *. simpl. rewrite Ec. apply IH. left; reflexivity.
        -- apply IH. right; exact Hin.
Qed.

Lemma clean_elems_good : forall ws acc,
  (forall w, In w ws -> no_slash w = true) -> forallb clean_word acc = true ->
  forallb clean_word (clean_elems true ws acc) = true.
Proof.
  induction ws as [|w ws IH]; intros acc Hws Hacc; simpl.
  - rewrite forallb_rev_gen. exact Hacc.
  - assert (Hrest : forall w', In w' ws -> no_slash w' = true) by (intros; apply Hws; right; assumption).
    destruct (is_nil w || gstr_eqb w [dot]) eqn:E1; [apply IH; assumption|].
    destruct (gstr_eqb w [dot; dot]) eqn:E2.
    + destruct acc as [|a acc'].
      * apply IH; [assumption | reflexivity].
      * simpl in Hacc. apply andb_prop in Hacc as [Ha Hacc'].
        assert (Hna : gstr_eqb a [dot; dot] = false).
        { unfold clean_word in Ha. destruct (gstr_eqb a [dot; dot]); [|reflexivity].
          rewrite andb_false_r in Ha. discriminate Ha. }
        rewrite Hna. apply IH; assumption.
    + apply IH; [assumption|]. simpl. rewrite Hacc, andb_true_r.
      apply orb_false_iff in E1 as [E1 E1']. unfold clean_word.
      rewrite E1, E1', E2, (Hws w (or_introl eq_refl)). reflexivity.
Qed.

Lemma Clean_abs_shape : forall p, IsAbs p = true ->
  exists ws, forallb clean_word ws = true /\ Clean p = slash :: join_with slash ws.
Proof.
  intros p H. unfold Clean. unfold IsAbs in H. rewrite H.
  eexists. split; [|reflexivity].
  apply clean_elems_good; [apply split_on_no_slash | reflexivity].
Qed.

Lemma split_on_noslash_word : forall w, no_slash w = true -> split_on slash w = [w].
Proof.
  induction w as [|c w IH]; intros H; [reflexivity|]. unfold no_slash in H. simpl in H.
  apply andb_prop in H as [Hc Hw]. apply negb_true_iff in Hc. simpl. rewrite Hc, IH by exact Hw.
  reflexivity.
Qed.

Lemma split_on_app_slash : forall w r, no_slash w = true ->
  split_on slash (w ++ slash :: r) = w :: split_on slash r.
Proof.
  induction w as [|c w IH]; intros r H; [reflexivity|]. unfold no_slash in H. simpl in H.
  apply andb_prop in H as [Hc Hw]. apply negb_true_iff in Hc. simpl. rewrite Hc, IH by exact Hw.
  reflexivity.
Qed.

Lemma clean_word_no_slash : forall w, clean_word w = true -> no_slash w = true.
Proof. intros w H. unfold clean_word in H. repeat rewrite andb_true_iff in H. tauto. Qed.

Lemma clean_word_nonnil : forall w, clean_word w = true -> w <> [].
Proof. intros w H ->. discriminate H. Qed.

Lemma join_cons_cons : forall w v r, join_with slash (w :: v :: r) = w ++ slash :: join_with slash (v :: r).
Proof. reflexivity. Qed.

Lemma split_join : forall ws, ws <> [] -> forallb clean_word ws = true ->
  split_on slash (join_with slash ws) = ws.
Proof.
  induction ws as [|w ws IH]; intros Hne H; [contradiction|]. simpl in H.
  apply andb_prop in H as [Hw Hws].
  destruct ws as [|v ws].
  - apply split_on_noslash_word, clean_word_no_slash, Hw.
  - rewrite join_cons_cons, split_on_app_slash by (apply clean_word_no_slash, Hw).
    rewrite IH by (discriminate || exact Hws). reflexivity.
Qed.

Lemma clean_elems_keep : forall ws acc, forallb clean_word ws = true ->
  clean_elems true ws acc = rev acc ++ ws.
Proof.
  induction ws as [|w ws IH]; intros acc H; simpl.
  - rewrite app_nil_r. reflexivity.
  - simpl in H. apply andb_prop in H as [Hw Hws].
    unfold clean_word in Hw. repeat rewrite andb_true_iff in Hw. destruct Hw as [[[H1 _] H3] H4].
    apply negb_true_iff in H1, H3, H4. rewrite H1, H3, H4. simpl.
    rewrite IH by exact Hws. simpl. rewrite <- app_assoc. reflexivity.
Qed.

Lemma Clean_clean_shape : forall ws, forallb clean_word ws = true ->
  Clean (slash :: join_with slash ws) = slash :: join_with slash ws.
Proof.
  intros ws H. unfold Clean. cbn [HasPrefix]. rewrite Ascii.eqb_refl. cbn [andb].
  change (split_on slash (slash :: join_with slash ws))
    with (if Ascii.eqb slash slash then [] :: split_on slash (join_with slash ws)
          else match split_on slash (join_with slash ws) with
               | w :: ws0 => (slash :: w) :: ws0 | [] => [[slash]] end).
  rewrite Ascii.eqb_refl.
  destruct ws as [|w ws']; [reflexivity|].
  rewrite split_join by (discriminate || exact H).
  change (clean_elems true ([] :: w :: ws') []) with (clean_elems true (w :: ws') []).
  rewrite clean_elems_keep by exact H. reflexivity.
Qed.

Lemma IsAbs_app : forall a b, IsAbs a = true -> IsAbs (a ++ b) = true.
Proof. intros [|c a] b H; [discriminate H|]. exact H. Qed.

Lemma Abs_abs_clean : forall getwd p,
  (forall wd, getwd = Some wd -> IsAbs wd = true) ->
  forall q, Abs getwd p = Some q -> IsAbs q = true /\ Clean q = q.
Proof.
  intros getwd p Hwd q Hq.
  assert (Ha : exists x, IsAbs x = true /\ q = Clean x).
  { unfold Abs in Hq. destruct (IsAbs p) eqn:Ep.
    - injection Hq as <-. exists p. split; [exact Ep | reflexivity].
    - destruct getwd as [wd|]; [|discriminate Hq]. injection Hq as <-.
      specialize (Hwd wd eq_refl). unfold Join.
      destruct wd as [|c wd]; [discriminate Hwd|].
      destruct p as [|d p].
      + exists (c :: wd). split; [exact Hwd | reflexivity].
      + exists ((c :: wd) ++ slash :: d :: p). split; [apply IsAbs_app, Hwd | reflexivity]. }
  destruct Ha as (x & Hx & ->). destruct (Clean_abs_shape x Hx) as (ws & Hws & ->).
  split; [reflexivity | apply Clean_clean_shape, Hws].
Qed.

(** X12: filepath.Abs fails exactly when the path is relative and the
    working directory of the process cannot be read.  When the process's
    working directory is absolute (as os.Getwd returns it), the result
    is absolute and already clean: Clean leaves it unchanged. *)
Theorem Abs_result : forall getwd p,
  (Abs getwd p = None <-> IsAbs p = false /\ getwd = None) /\
  ((forall wd, getwd = Some wd -> IsAbs wd = true) ->
   forall q, Abs getwd p = Some q -> IsAbs q = true /\ Clean q = q).
Proof.
  intros getwd p. split.
  - unfold Abs. destruct (IsAbs p); [split; [discriminate | intros [H _]; discriminate H]|].
    destruct getwd; split; try discriminate; try (intros [_ H]; discriminate H); auto.
  - apply Abs_abs_clean.
Qed.

Lemma no_slash_app_take : forall w x, no_slash w = true -> take_elem (w ++ slash :: x) = w.
Proof.
  induction w as [|c w IH]; intros x H; simpl; [reflexivity|].
  unfold no_slash in H. simpl in H. apply andb_prop in H as [Hc Hw]. apply negb_true_iff in Hc.
  rewrite Hc, IH by exact Hw. reflexivity.
Qed.

Lemma no_slash_take : forall w, no_slash w = true -> take_elem w = w.
Proof.
  induction w as [|c w IH]; intros H; simpl; [reflexivity|].
  unfold no_slash in H. simpl in H. apply andb_prop in H as [Hc Hw]. apply negb_true_iff in Hc.
  rewrite Hc, IH by exact Hw. reflexivity.
Qed.

Lemma no_slash_app_drop : forall w x, no_slash w = true -> drop_elem (w ++ slash :: x) = slash :: x.
Proof.
  induction w as [|c w IH]; intros x H; simpl; [reflexivity|].
  unfold no_slash in H. simpl in H. apply andb_prop in H as [Hc Hw]. apply negb_true_iff in Hc.
  rewrite Hc, IH by exact Hw. reflexivity.
Qed.

Lemma no_slash_drop : forall w, no_slash w = true -> drop_elem w = [].
Proof.
  induction w as [|c w IH]; intros H; simpl; [reflexivity|].
  unfold no_slash in H. simpl in H. apply andb_prop in H as [Hc Hw]. apply negb_true_iff in Hc.
  rewrite Hc, IH by exact Hw. reflexivity.
Qed.

Lemma take_elem_join : forall w r, no_slash w = true -> take_elem (join_with slash (w :: r)) = w.
Proof.
  intros w [|v r] H; [apply no_slash_take, H|].
  rewrite join_cons_cons. apply no_slash_app_take, H.
Qed.

Lemma tl_drop_join : forall w r, no_slash w = true ->
  tl (drop_elem (join_with slash (w :: r))) = join_with slash r.
Proof.
  intros w [|v r] H.
  - simpl join_with. rewrite no_slash_drop by exact H. reflexivity.
  - rewrite join_cons_cons, no_slash_app_drop by exact H. reflexivity.
Qed.

Definition diverge (xb xt : list gstr) : Prop :=
  match xb, xt with
  | [], [] => False
  | x :: _, y :: _ => x <> y
  | _, _ => True
  end.

Lemma rel_scan_words : forall c xb xt n,
  forallb clean_word (c ++ xb) = true -> forallb clean_word (c ++ xt) = true ->
  diverge xb xt -> length c < n ->
  rel_scan n (join_with slash (c ++ xb)) (join_with slash (c ++ xt))
  = Some (join_with slash xb, hd [] xb, join_with slash xt).
Proof.
  induction c as [|w c IH]; intros xb xt n Hb Ht Hd Hn; destruct n as [|n]; try (simpl in Hn; lia).
  - cbn [app rel_scan].
    assert (Heb : take_elem (join_with slash xb) = hd [] xb).
    { destruct xb as [|x xb]; [reflexivity|]. simpl in Hb. apply andb_prop in Hb as [Hx _].
      apply take_elem_join, clean_word_no_slash, Hx. }
    assert (Het : take_elem (join_with slash xt) = hd [] xt).
    { destruct xt as [|y xt]; [reflexivity|]. simpl in Ht. apply andb_prop in Ht as [Hy _].
      apply take_elem_join, clean_word_no_slash, Hy. }
    rewrite Heb, Het.
    replace (gstr_eqb (hd [] xt) (hd [] xb)) with false; [reflexivity|].
    symmetry. apply gstr_eqb_neq.
    destruct xb as [|x xb], xt as [|y xt]; simpl in *; try contradiction.
    + apply andb_prop in Ht as [Hy _]. apply clean_word_nonnil, Hy.
    + apply andb_prop in Hb as [Hx _]. intros E. apply (clean_word_nonnil x Hx). symmetry; exact E.
    + intros E. apply Hd. symmetry; exact E.
  - cbn [app] in *. simpl in Hb, Ht. apply andb_prop in Hb as [Hw Hb]. apply andb_prop in Ht as [_ Ht].
    cbn [rel_scan]. rewrite !take_elem_join by (apply clean_word_no_slash, Hw).
    rewrite gstr_eqb_refl, !tl_drop_join by (apply clean_word_no_slash, Hw).
    apply IH; [exact Hb | exact Ht | exact Hd | simpl in Hn; lia].
Qed.

Lemma words_diverge : forall wb wt : list gstr, wb <> wt ->
  exists c xb xt, wb = c ++ xb /\ wt = c ++ xt /\ diverge xb xt.
Proof.
  induction wb as [|x wb IH]; intros wt Hne.
  - exists [], [], wt. split; [reflexivity|]. split; [reflexivity|].
    destruct wt; [contradiction | exact I].
  - destruct wt as [|y wt].
    + exists [], (x :: wb), []. repeat split; exact I.
    + destruct (list_eq_dec ascii_dec x y) as [<-|Hxy].
      * assert (wb <> wt) by congruence. destruct (IH wt H) as (c & xb & xt & -> & -> & Hd).
        exists (x :: c), xb, xt. repeat split; [exact Hd].
      * exists [], (x :: wb), (y :: wt). repeat split. exact Hxy.
Qed.

Lemma length_join_words : forall ws, forallb clean_word ws = true ->
  length ws <= length (join_with slash ws).
Proof.
  induction ws as [|w ws IH]; intros H; [simpl; lia|]. simpl in H. apply andb_prop in H as [Hw Hws].
  destruct w as [|a w]; [discriminate Hw|].
  destruct ws as [|v ws]; [simpl; lia|].
  rewrite join_cons_cons, length_app. specialize (IH Hws). simpl in *. lia.
Qed.

Lemma join_words_app : forall a b, a <> [] -> b <> [] ->
  join_with slash (a ++ b) = join_with slash a ++ slash :: join_with slash b.
Proof.
  induction a as [|w a IH]; intros b Ha Hb; [contradiction|].
  destruct a as [|v a].
  - destruct b as [|u b]; [contradiction|]. reflexivity.
  - change ((w :: v :: a) ++ b) with (w :: v :: (a ++ b)).
    rewrite !join_cons_cons. change (v :: a ++ b) with ((v :: a) ++ b).
    rewrite IH by (discriminate || exact Hb). rewrite <- app_assoc. reflexivity.
Qed.

Lemma join_words_nonnil : forall ws, forallb clean_word ws = true -> ws <> [] -> join_with slash ws <> [].
Proof.
  intros ws H Hne E. pose proof (length_join_words ws H) as L. rewrite E in L.
  destruct ws; [contradiction | simpl in L; lia].
Qed.

(** The directory prefix of an absolute clean path [b]: the paths below
    it start with it. *)
Definition under (b : gstr) : gstr := if gstr_eqb b [slash] then [slash] else b ++ [slash].

(** The shape of filepath.Rel on two absolute paths. *)
Lemma Rel_abs_shape : forall base targ, IsAbs base = true -> IsAbs targ = true ->
  exists r, Rel base targ = Some r /\
  (HasPrefix r [dot; dot] = false ->
   (Clean targ = Clean base /\ r = [dot]) \/ Clean targ = under (Clean base) ++ r).
Proof.
  intros base targ Hb Ht.
  destruct (Clean_abs_shape base Hb) as (wb & Hwb & EB).
  destruct (Clean_abs_shape targ Ht) as (wt & Hwt & ET).
  unfold Rel. rewrite EB, ET.
  destruct (gstr_eqb (slash :: join_with slash wt) (slash :: join_with slash wb)) eqn:Eq.
  { exists [dot]. split; [reflexivity|]. intros _. left. apply gstr_eqb_eq in Eq. split; [exact Eq | reflexivity]. }
  assert (Hne : wb <> wt) by (intros <-; rewrite gstr_eqb_refl in Eq; discriminate Eq).
  destruct (words_diverge wb wt Hne) as (c & xb & xt & -> & -> & Hd).
  change (gstr_eqb (slash :: join_with slash (c ++ xb)) [dot]) with false. cbv iota.
  cbn [HasPrefix]. rewrite Ascii.eqb_refl. cbn [andb Bool.eqb negb].
  set (n := length (slash :: join_with slash (c ++ xb)) + length (slash :: join_with slash (c ++ xt))).
  cbn [rel_scan take_elem]. rewrite Ascii.eqb_refl. cbn [gstr_eqb drop_elem tl].
  assert (Hn : length c < n - 0).
  { unfold n. pose proof (length_join_words _ Hwb) as L. rewrite length_app in L. simpl. lia. }
  unfold n. cbn [length]. rewrite (rel_scan_words c xb xt) by (exact Hwb || exact Hwt || exact Hd ||
    (pose proof (length_join_words _ Hwb) as L; rewrite length_app in L; lia)).
  destruct xb as [|x xb].
  - cbn [hd gstr_eqb is_nil negb join_with]. eexists. split; [reflexivity|]. intros _. right.
    destruct xt as [|y xt]; [contradiction|].
    rewrite app_nil_r. unfold under.
    destruct c as [|w c].
    + reflexivity.
    + rewrite forallb_app in Hwt. apply andb_prop in Hwt as [Hc Hxt].
      rewrite app_nil_r in Hwb.
      assert (Hj : join_with slash (w :: c) <> []) by (apply join_words_nonnil; [exact Hwb | discriminate]).
      replace (gstr_eqb (slash :: join_with slash (w :: c)) [slash]) with false
        by (destruct (join_with slash (w :: c)); [contradiction | reflexivity]).
      rewrite join_words_app by discriminate. rewrite <- !app_assoc. reflexivity.
  - assert (Hxs : forallb clean_word (x :: xb) = true)
      by (rewrite forallb_app in Hwb; apply andb_prop in Hwb as [_ H]; exact H).
    assert (Hx : clean_word x = true) by (simpl in Hxs; apply andb_prop in Hxs as [H _]; exact H).
    assert (Ex : gstr_eqb x [dot; dot] = false).
    { unfold clean_word in Hx. destruct (gstr_eqb x [dot; dot]); [rewrite andb_false_r in Hx; discriminate Hx | reflexivity]. }
    assert (Ej : is_nil (join_with slash (x :: xb)) = false).
    { pose proof (join_words_nonnil (x :: xb) Hxs ltac:(discriminate)) as Hj.
      destruct (join_with slash (x :: xb)); [contradiction | reflexivity]. }
    cbn [hd]. rewrite Ex, Ej. cbn [negb]. eexists. split; [reflexivity|].
    intros H. cbn [HasPrefix app] in H. rewrite Ascii.eqb_refl in H. discriminate H.
Qed.

(** X13: for two absolute paths filepath.Rel never fails, and a result
    that does not start with [..] says the target is the base itself
    (result [.]) or lies below it: the cleaned target is the cleaned base,
    then a slash (none after the root), then the result. *)
Theorem Rel_abs : forall base targ, IsAbs base = true -> IsAbs targ = true ->
  exists r, Rel base targ = Some r /\
  (HasPrefix r [dot; dot] = false ->
   (Clean targ = Clean base /\ r = [dot]) \/ Clean targ = under (Clean base) ++ r).
Proof. intros base targ Hb Ht. exact (Rel_abs_shape base targ Hb Ht). Qed.

(** ** What a workspace-restricted guard lets through *)

(** X14: when the workspace restriction is on and guardCommand allows a
    command, every path match of the trimmed command that filepath.Abs
    resolves names the working directory itself or a path below it
    (the process's working directory being absolute). *)
Theorem guard_paths_inside : forall t getwd command cwd cwdPath tok p,
  restrictToWorkspace t = true ->
  (forall wd, getwd = Some wd -> IsAbs wd = true) ->
  guardCommand t getwd command cwd = [] ->
  Abs getwd cwd = Some cwdPath ->
  In tok (FindAllString pathPattern (TrimSpace command)) ->
  Abs getwd tok = Some p ->
  p = cwdPath \/ HasPrefix p (under cwdPath) = true.
Proof.
  intros t getwd command cwd cwdPath tok p Hr Hwd Hg Hcwd Hin Hp.
  destruct (guard_nil_stages _ _ _ _ Hg) as [_ Hw]. specialize (Hw Hr).
  pose proof (workspace_checks_nil _ _ _ Hw) as Hf.
  rewrite (workspace_checks_reach _ _ _ Hf), Hcwd in Hw.
  destruct (Abs_abs_clean getwd cwd Hwd cwdPath Hcwd) as [Hca Hcc].
  destruct (Abs_abs_clean getwd tok Hwd p Hp) as [Hpa Hpc].
  destruct (Rel_abs_shape cwdPath p Hca Hpa) as (r & Hrel & Hsh).
  destruct (HasPrefix r [dot; dot]) eqn:Hdd.
  - rewrite (check_paths_outside getwd cwdPath _ tok p r Hin Hp Hrel Hdd) in Hw.
    vm_compute in Hw. discriminate Hw.
  - destruct (Hsh eq_refl) as [[E _]|E]; rewrite Hpc, Hcc in E.
    + left. exact E.
    + right. rewrite E. apply HasPrefix_app.
Qed.

(** ** Instances of the properties above *)

Lemma guard_whitespace_padding_witness :
  forallb is_space_byte (str " ") = true /\ forallb is_space_byte [ascii_of_nat 9] = true /\
  guardCommand project_tool (Some project) (str " " ++ str "rm -rf /" ++ [ascii_of_nat 9]) project
  = guardCommand project_tool (Some project) (str "rm -rf /") project.
Proof.
  assert (H1 : forallb is_space_byte (str " ") = true) by (vm_compute; reflexivity).
  assert (H2 : forallb is_space_byte [ascii_of_nat 9] = true) by (vm_compute; reflexivity).
  split; [exact H1|]. split; [exact H2|].
  exact (guard_whitespace_padding project_tool (Some project) (str " ") (str "rm -rf /")
           [ascii_of_nat 9] project H1 H2).
Defined.

Lemma Execute_missing_command_witness :
  (forall c, (fun _ : gstr => @None Value) (str "command") <> Some (VString c)) /\
  Execute project_tool (fun _ => None) (failing_run [] []) w0
  = (ErrorResult (str "command is required"), w0).
Proof.
  assert (H : forall c, (fun _ : gstr => @None Value) (str "command") <> Some (VString c))
    by (intros c E; discriminate E).
  split; [exact H|].
  exact (Execute_missing_command project_tool (fun _ => None) (failing_run [] []) w0 H).
Defined.

Lemma Execute_spawn_witness :
  cmd_args (str "ls") (str "command") = Some (VString (str "ls")) /\
  guardCommand project_tool (w_getwd w0) (str "ls")
    (effective_cwd project_tool (cmd_args (str "ls")) (w_getwd w0)) = [] /\
  w_spawned (snd (Execute project_tool (cmd_args (str "ls")) (failing_run [] []) w0))
  = [spawn_request project_tool (str "ls") project].
Proof.
  assert (H1 : cmd_args (str "ls") (str "command") = Some (VString (str "ls")))
    by (vm_compute; reflexivity).
  assert (H2 : guardCommand project_tool (w_getwd w0) (str "ls")
                 (effective_cwd project_tool (cmd_args (str "ls")) (w_getwd w0)) = [])
    by (vm_compute; reflexivity).
  split; [exact H1|]. split; [exact H2|].
  destruct (Execute_spawn project_tool (cmd_args (str "ls")) (failing_run [] []) w0 (str "ls") H1 H2)
    as [E _].
  rewrite E. vm_compute. reflexivity.
Defined.

Lemma SetAllowPatterns_result_witness :
  map toy_compile [str "ls"] = map Some [lit (str "ls")] /\
  snd (SetAllowPatterns toy_compile project_tool ([str "ls"] ++ str "(" :: [str "git"]))
  = Some (InvalidAllowPattern (str "(")).
Proof.
  assert (H : map toy_compile [str "ls"] = map Some [lit (str "ls")]) by (vm_compute; reflexivity).
  assert (Hc : toy_compile (str "(") = None) by (vm_compute; reflexivity).
  split; [exact H|].
  destruct (SetAllowPatterns_result toy_compile project_tool [str "ls"] [lit (str "ls")] H) as [_ E].
  rewrite (E (str "(") [str "git"] Hc). reflexivity.
Defined.

Lemma allow_list_extension_witness :
  [str "ls"] <> [] /\
  snd (SetAllowPatterns toy_compile project_tool ([str "ls"] ++ [str "cat"])) = None /\
  guardCommand (fst (SetAllowPatterns toy_compile project_tool [str "ls"])) (Some project)
    (str "ls -la") project = [] /\
  guardCommand (fst (SetAllowPatterns toy_compile project_tool ([str "ls"] ++ [str "cat"])))
    (Some project) (str "ls -la") project = [].
Proof.
  assert (H1 : [str "ls"] <> []) by discriminate.
  assert (H2 : snd (SetAllowPatterns toy_compile project_tool ([str "ls"] ++ [str "cat"])) = None)
    by (vm_compute; reflexivity).
  assert (H3 : guardCommand (fst (SetAllowPatterns toy_compile project_tool [str "ls"])) (Some project)
                 (str "ls -la") project = []) by (vm_compute; reflexivity).
  split; [exact H1|]. split; [exact H2|]. split; [exact H3|].
  exact (allow_list_extension toy_compile project_tool [str "ls"] [str "cat"] (Some project)
           (str "ls -la") project H1 H2 H3).
Defined.

(** A process that prints [out] and exits with status 0. *)
Definition ok_run (out : gstr) : SpawnReq -> RunOutcome :=
  fun _ => {| stdout := out; stderr := []; run_err := None; ctx_err := CtxNil |}.

Lemma successful_run_result_witness :
  cmd_args (str "ls") (str "command") = Some (VString (str "ls")) /\
  guardCommand project_tool (w_getwd w0) (str "ls")
    (effective_cwd project_tool (cmd_args (str "ls")) (w_getwd w0)) = [] /\
  run_err (ok_run (str "main.go")
             (spawn_request project_tool (str "ls")
                (effective_cwd project_tool (cmd_args (str "ls")) (w_getwd w0)))) = None /\
  IsError (fst (Execute project_tool (cmd_args (str "ls")) (ok_run (str "main.go")) w0)) = false.
Proof.
  assert (H1 : cmd_args (str "ls") (str "command") = Some (VString (str "ls")))
    by (vm_compute; reflexivity).
  assert (H2 : guardCommand project_tool (w_getwd w0) (str "ls")
                 (effective_cwd project_tool (cmd_args (str "ls")) (w_getwd w0)) = [])
    by (vm_compute; reflexivity).
  assert (H3 : run_err (ok_run (str "main.go")
                 (spawn_request project_tool (str "ls")
                    (effective_cwd project_tool (cmd_args (str "ls")) (w_getwd w0)))) = None)
    by reflexivity.
  split; [exact H1|]. split; [exact H2|]. split; [exact H3|].
  exact (proj1 (successful_run_result project_tool (cmd_args (str "ls")) (ok_run (str "main.go"))
                  w0 (str "ls") H1 H2 H3)).
Defined.

Lemma fmtInt_decimal_witness : (0 <= 120)%Z /\ decimal_value (fmtInt 120) = 120%Z.
Proof.
  assert (H : (0 <= 120)%Z) by lia.
  split; [exact H|]. exact (proj1 (fmtInt_decimal 120 H)).
Defined.

Lemma DurationString_seconds_witness :
  (0 < 90)%Z /\
  DurationString (90 * Second)%Z = fmtInt (90 / 60) ++ str "m" ++ fmtInt (90 mod 60) ++ str "s".
Proof.
  assert (H : (0 < 90)%Z) by lia.
  split; [exact H|]. rewrite (DurationString_seconds 90 H). reflexivity.
Defined.

Lemma Rel_abs_witness :
  IsAbs project = true /\ IsAbs (str "/home/user/project/src") = true /\
  exists r, Rel project (str "/home/user/project/src") = Some r.
Proof.
  assert (H1 : IsAbs project = true) by (vm_compute; reflexivity).
  assert (H2 : IsAbs (str "/home/user/project/src") = true) by (vm_compute; reflexivity).
  split; [exact H1|]. split; [exact H2|].
  destruct (Rel_abs project (str "/home/user/project/src") H1 H2) as (r & Hr & _).
  exists r. exact Hr.
Defined.

Lemma guard_paths_inside_witness :
  restrictToWorkspace project_tool = true /\
  (forall wd, Some project = Some wd -> IsAbs wd = true) /\
  guardCommand project_tool (Some project) (str "cat /home/user/project/src/main.go") project = [] /\
  Abs (Some project) project = Some project /\
  In (str "/home/user/project/src/main.go")
     (FindAllString pathPattern (TrimSpace (str "cat /home/user/project/src/main.go"))) /\
  Abs (Some project) (str "/home/user/project/src/main.go") = Some (str "/home/user/project/src/main.go") /\
  (str "/home/user/project/src/main.go" = project
   \/ HasPrefix (str "/home/user/project/src/main.go") (under project) = true).
Proof.
  assert (H1 : restrictToWorkspace project_tool = true) by reflexivity.
  assert (H2 : forall wd, Some project = Some wd -> IsAbs wd = true)
    by (intros wd E; injection E as <-; vm_compute; reflexivity).
  assert (H3 : guardCommand project_tool (Some project) (str "cat /home/user/project/src/main.go") project = [])
    by (vm_compute; reflexivity).
  assert (H4 : Abs (Some project) project = Some project) by (vm_compute; reflexivity).
  assert (H5 : In (str "/home/user/project/src/main.go")
                 (FindAllString pathPattern (TrimSpace (str "cat /home/user/project/src/main.go"))))
    by (vm_compute; left; reflexivity).
  assert (H6 : Abs (Some project) (str "/home/user/project/src/main.go")
               = Some (str "/home/user/project/src/main.go")) by (vm_compute; reflexivity).
  do 6 (split; [assumption|]).
  exact (guard_paths_inside project_tool (Some project) _ project project _ _ H1 H2 H3 H4 H5 H6).
Defined.
